(** * Entity access layer: [BaseQueries] (src/server/src/db/queries/base.queries.ts)

    A shallow embedding of the generic query class and of the error helpers
    of src/server/src/db/utils/query-helpers.ts, followed by the properties
    of the naming transform, the predicate builders and the CRUD operations.

    Modelling conventions.
    - A JavaScript string is a [string]; the two regular expressions of the
      naming transform only look at ASCII letters and the underscore.
    - A plain object handed to [Object.entries] is the list of its entries,
      in enumeration order ([Obj]); writing a property is [obj_set].
      Keys that look like array indices are outside the model.
    - [COLUMN_MAP] is a plain object, absent when the subclass does not
      declare it: its own properties are a read-only finite map ([gmap]),
      and a key it does not own is looked up in [Object.prototype]
      ([object_prototype]), as the property access of the source does.
    - A [number] is an integer ([Z]); its falsy value is [0].
    - The pool is a function from a statement to what the driver answers;
      an operation runs in [Eff], an error monad that records every
      statement handed to the pool and every logger call. *)

From Stdlib Require Import String Ascii ZArith.
From stdpp Require Import base option list gmap strings pretty.

(** ** JavaScript values and objects *)

Inductive Value : Type :=
  | VUndefined
  | VNull
  | VBool (b : bool)
  | VNum (n : Z)
  | VStr (s : string).

Abbreviation Obj := (list (string * Value)).

(** [value !== undefined && value !== null] *)
Definition defined (v : Value) : bool :=
  match v with
  | VUndefined | VNull => false
  | _ => true
  end.

(** Truthiness, as used by [Boolean(v)], [!v], [v || d] and [if (v)]. *)
Definition truthy (v : Value) : bool :=
  match v with
  | VUndefined | VNull => false
  | VBool b => b
  | VNum n => negb (n =? 0)%Z
  | VStr s => negb (String.eqb s "")
  end.

(** [`${v}`]. A number is printed with all its digits, as JavaScript does
    for an integer of absolute value below 1e21. *)
Definition toString (v : Value) : string :=
  match v with
  | VUndefined => "undefined"
  | VNull => "null"
  | VBool true => "true"
  | VBool false => "false"
  | VNum n => pretty n
  | VStr s => s
  end.

(** [o[k]], for a key [k] that [Object.prototype] does not define: the own
    property of that name, and [undefined] when there is none. The source
    reads the fixed keys [exists] and [count] this way. *)
Fixpoint obj_get (o : Obj) (k : string) : Value :=
  match o with
  | [] => VUndefined
  | (k', v) :: o' => if String.eqb k' k then v else obj_get o' k
  end.

(** [o[k] = v]: an existing property keeps its place, a new one goes last.
    The key is not [__proto__], whose assignment is no property write; the
    row mapper never writes it, since no camelCase rewrite holds an
    underscore followed by a lower-case letter. *)
Fixpoint obj_set (o : Obj) (k : string) (v : Value) : Obj :=
  match o with
  | [] => [(k, v)]
  | (k', v') :: o' =>
      if String.eqb k' k then (k', v) :: o' else (k', v') :: obj_set o' k v
  end.

(** ** Members inherited from [Object.prototype]

    A plain object answers [o[k]] with its own property of that name and,
    when it has none, with the member of [Object.prototype] of that name.
    Such a member is a function, or the prototype object itself for
    [__proto__]; it is not null or undefined and it is truthy. The class
    only ever interpolates a column into a statement or joins it into a
    list, so a member is kept as the text that gives, in the form Node
    prints it. *)

Definition native_function (name : string) : string :=
  "function " +:+ name +:+ "() { [native code] }".

Definition object_prototype (key : string) : option string :=
  if String.eqb key "constructor" then Some (native_function "Object")
  else if existsb (String.eqb key)
            ["__defineGetter__"; "__defineSetter__"; "hasOwnProperty";
             "__lookupGetter__"; "__lookupSetter__"; "isPrototypeOf";
             "propertyIsEnumerable"; "toString"; "valueOf"; "toLocaleString"]
       then Some (native_function key)
  else if String.eqb key "__proto__" then Some "[object Object]"
  else None.

(** ** Naming transform *)

Definition is_lower (c : ascii) : bool := (("a" <=? c) && (c <=? "z"))%char.
Definition is_upper (c : ascii) : bool := (("A" <=? c) && (c <=? "Z"))%char.
Definition is_digit (c : ascii) : bool := (("0" <=? c) && (c <=? "9"))%char.

(** [letter.toUpperCase()] and [letter.toLowerCase()] on one code unit. *)
Definition toUpperCase (c : ascii) : ascii :=
  if is_lower c then ascii_of_nat (nat_of_ascii c - 32) else c.
Definition toLowerCase (c : ascii) : ascii :=
  if is_upper c then ascii_of_nat (nat_of_ascii c + 32) else c.

(** [str.replace(/_([a-z])/g, (_, letter) => letter.toUpperCase())]:
    matches are taken leftmost first and do not overlap. *)
Fixpoint snakeToCamel (str : string) : string :=
  match str with
  | EmptyString => EmptyString
  | String c rest =>
      match rest with
      | String letter rest' =>
          if (c =? "_")%char && is_lower letter
          then String (toUpperCase letter) (snakeToCamel rest')
          else String c (snakeToCamel rest)
      | EmptyString => String c EmptyString
      end
  end.

(** [str.replace(/[A-Z]/g, (letter) => `_${letter.toLowerCase()}`)] *)
Fixpoint camelToSnake (str : string) : string :=
  match str with
  | EmptyString => EmptyString
  | String c rest =>
      if is_upper c
      then String "_" (String (toLowerCase c) (camelToSnake rest))
      else String c (camelToSnake rest)
  end.

(** ** Row mapper *)

Definition mapRowToEntity (row : Obj) : Obj :=
  fold_left (fun entity '(key, value) => obj_set entity (snakeToCamel key) value)
            row [].

Definition mapRowsToEntities (rows : list Obj) : list Obj :=
  mapRowToEntity <$> rows.

(** ** Errors (query-helpers.ts) *)

Definition formatCriteria (criteria : Obj) : string :=
  String.concat ", " ((fun '(k, v) => k +:+ ": " +:+ toString v) <$> criteria).

Inductive JsError : Type :=
  | Error (message : string)
  | TypeError (message : string)
  | NotFoundError (entityName : string) (criteria : Obj)
  | DriverError (message : string).

Definition message (e : JsError) : string :=
  match e with
  | Error m | TypeError m | DriverError m => m
  | NotFoundError entityName criteria =>
      entityName +:+ " not found with " +:+ formatCriteria criteria
  end.

Definition createNotFoundError (entityName : string) (criteria : Obj) : JsError :=
  NotFoundError entityName criteria.

Inductive Outcome (A : Type) : Type :=
  | Return (a : A)
  | Throw (e : JsError).
Arguments Return {A} a.
Arguments Throw {A} e.

(** ** The store and the effects of an operation *)

Record Stmt : Type := { text : string; values : list Value }.

Record QueryResult : Type := { rows : list Obj; rowCount : option nat }.

Abbreviation Pool := (Stmt -> Outcome QueryResult).

Inductive Event : Type :=
  | Query (s : Stmt)
  | LogError (msg : string) (e : JsError)
  | LogInfo (msg : string).

Definition Eff (A : Type) : Type := list Event -> Outcome A * list Event.

Definition eff_ret {A} (a : A) : Eff A := fun tr => (Return a, tr).

Definition eff_bind {A B} (f : A -> Eff B) (m : Eff A) : Eff B :=
  fun tr =>
    match m tr with
    | (Return a, tr') => f a tr'
    | (Throw e, tr') => (Throw e, tr')
    end.

#[global] Instance Eff_ret : MRet Eff := @eff_ret.
#[global] Instance Eff_bind : MBind Eff := @eff_bind.

Definition throw {A} (e : JsError) : Eff A := fun tr => (Throw e, tr).

Definition lift {A} (o : Outcome A) : Eff A := fun tr => (o, tr).

Definition log (ev : Event) : Eff unit := fun tr => (Return tt, tr ++ [ev]).

(** [try { body } catch (error) { logger.error(msg, error); throw error; }] *)
Definition try_log {A} (msg : string) (body : Eff A) : Eff A :=
  fun tr =>
    match body tr with
    | (Throw e, tr') => (Throw e, tr' ++ [LogError msg e])
    | r => r
    end.

(** Running an operation from an empty trace. *)
Definition run {A} (m : Eff A) : Outcome A * list Event := m [].

Definition queries (tr : list Event) : list Stmt :=
  omap (fun ev => match ev with Query s => Some s | _ => None end) tr.

(** [db.query(text, values)] on the pool [db]. *)
Definition db_query (db : Pool) (text : string) (values : list Value)
  : Eff QueryResult :=
  fun tr =>
    let s := {| text := text; values := values |} in
    (db s, tr ++ [Query s]).

(** The line break and indentation of the multi-line statement templates. *)
Definition nl : string := String (ascii_of_nat 10) "        ".

(** [findAll]'s and [getAll]'s [options] argument. *)
Inductive Direction : Type := ASC | DESC.

Definition direction_text (d : Direction) : string :=
  match d with ASC => "ASC" | DESC => "DESC" end.

Record Options : Type := {
  limit : option Z;
  offset : option Z;
  orderBy : option string;
  orderDirection : option Direction
}.

(** ** The class [BaseQueries] *)

Section BaseQueries.

(** [this.table], [this.COLUMN_MAP] and [this.db]. *)
Variable table : string.
Variable COLUMN_MAP : option (gmap string string).
Variable db : Pool.

(** [this.COLUMN_MAP?.[key]], [None] standing for [undefined]: the own
    property of the table, else the member inherited from
    [Object.prototype]; nothing when the table is absent. *)
Definition column_override (key : string) : option string :=
  match COLUMN_MAP with
  | Some overrides =>
      match overrides !! key with
      | Some column => Some column
      | None => object_prototype key
      end
  | None => None
  end.

(** [this.COLUMN_MAP?.[key] ?? this.camelToSnake(key)] *)
Definition getColumnName (key : string) : string :=
  match column_override key with
  | Some column => column
  | None => camelToSnake key
  end.

(** The [forEach] of [getColumnMapping], from entry number [index] on. *)
Fixpoint getColumnMapping_each (entries : Obj) (index : nat)
    (conditions : list string) (values : list Value)
  : Outcome (list string * list Value) :=
  match entries with
  | [] => Return (conditions, values)
  | (key, value) :: entries' =>
      let column := getColumnName key in
      if String.eqb column ""
      then Throw (Error ("Invalid column key: " +:+ key))
      else getColumnMapping_each entries' (S index)
             (conditions ++ [column +:+ " = $" +:+ pretty (index + 1)])
             (values ++ [value])
  end.

(** Returns [{ whereClause, values }]. *)
Definition getColumnMapping (data : Obj) : Outcome (string * list Value) :=
  let entries := data in
  if length entries =? 0
  then Throw (Error "Identifier object cannot be empty")
  else
    match getColumnMapping_each entries 0 [] [] with
    | Throw e => Throw e
    | Return (conditions, values) =>
        Return (String.concat " AND " conditions, values)
    end.

(** Returns the list of [{ column, value }]. *)
Definition getUpdateMapping (updates : Obj) : list (string * Value) :=
  (fun '(key, value) => (getColumnName key, value)) <$> updates.

Definition getCreateMapping (data : Obj) : list (string * Value) :=
  (fun '(key, value) => (getColumnName key, value)) <$> data.

(** The [for ... of] loop of [buildFilterClause]. *)
Fixpoint buildFilterClause_loop (entries : Obj) (paramIndex : nat)
    (conditions : list string) (params : list Value)
  : list string * list Value :=
  match entries with
  | [] => (conditions, params)
  | (key, value) :: entries' =>
      if defined value then
        let column := getColumnName key in
        if negb (String.eqb column "") then
          buildFilterClause_loop entries' (paramIndex + 1)
            (conditions ++ [column +:+ " = $" +:+ pretty paramIndex])
            (params ++ [value])
        else buildFilterClause_loop entries' paramIndex conditions params
      else buildFilterClause_loop entries' paramIndex conditions params
  end.

(** Returns [{ whereClause, params }]. *)
Definition buildFilterClause (filters : Obj) : string * list Value :=
  let '(conditions, params) := buildFilterClause_loop filters 1 [] [] in
  (if 0 <? length conditions then String.concat " AND " conditions else "1=1",
   params).

(** *** Single entity operations *)

Definition find (identifier : Obj) : Eff (option Obj) :=
  '(whereClause, values) ← lift (getColumnMapping identifier);
  let query :=
    "SELECT * FROM " +:+ table +:+ " WHERE " +:+ whereClause +:+ " LIMIT 1" in
  try_log ("Failed to find " +:+ table +:+ ":")
    (result ← db_query db query values;
     mret (match rows result with
           | row :: _ => Some (mapRowToEntity row)
           | [] => None
           end)).

Definition get (identifier : Obj) : Eff Obj :=
  entity ← find identifier;
  match entity with
  | None => throw (createNotFoundError table identifier)
  | Some entity => mret entity
  end.

Definition exists_ (identifier : Obj) : Eff bool :=
  '(whereClause, values) ← lift (getColumnMapping identifier);
  let query :=
    "SELECT EXISTS(SELECT 1 FROM " +:+ table +:+ " WHERE " +:+ whereClause
    +:+ ")" in
  try_log ("Failed to check " +:+ table +:+ " existence:")
    (result ← db_query db query values;
     match rows result with
     | row :: _ => mret (truthy (obj_get row "exists"))
     | [] => throw (TypeError
               "Cannot read properties of undefined (reading 'exists')")
     end).

(** The [SET] assignments of [update] ([shift = 1]) and of
    [updateAndReturn] ([shift = 2]):
    [`${mapping.column} = $${identifierValues.length + index + shift}`]. *)
Definition setClauses (shift : nat) (identifierValues : list Value)
    (updateMappings : list (string * Value)) : list string :=
  imap (fun index mapping =>
          fst mapping +:+ " = $"
          +:+ pretty (length identifierValues + index + shift))
       updateMappings.

Definition update (identifier updates : Obj) : Eff unit :=
  '(whereClause, identifierValues) ← lift (getColumnMapping identifier);
  let updateMappings := getUpdateMapping updates in
  let setClauses := setClauses 1 identifierValues updateMappings in
  let query :=
    nl +:+ "UPDATE " +:+ table +:+
    nl +:+ "SET " +:+ String.concat ", " setClauses +:+
    nl +:+ "WHERE " +:+ whereClause in
  let params := identifierValues ++ updateMappings.*2 in
  try_log ("Failed to update " +:+ table +:+ ":")
    (result ← db_query db query params;
     match rowCount result with
     | Some 0 => throw (createNotFoundError table identifier)
     | _ => mret tt
     end).

Definition updateAndReturn (identifier updates : Obj) : Eff Obj :=
  '(whereClause, identifierValues) ← lift (getColumnMapping identifier);
  let updateMappings := getUpdateMapping updates in
  let setClauses := setClauses 2 identifierValues updateMappings in
  let query :=
    nl +:+ "UPDATE " +:+ table +:+
    nl +:+ "SET " +:+ String.concat ", " setClauses +:+
    nl +:+ "WHERE " +:+ whereClause +:+
    nl +:+ "RETURNING *" in
  let params := identifierValues ++ updateMappings.*2 in
  try_log ("Failed to update " +:+ table +:+ ":")
    (result ← db_query db query params;
     match rowCount result with
     | Some 0 => throw (createNotFoundError table identifier)
     | _ =>
         match rows result with
         | row :: _ => mret (mapRowToEntity row)
         | [] => throw (TypeError
                   "Cannot convert undefined or null to object")
         end
     end).

Definition delete (identifier : Obj) : Eff unit :=
  '(whereClause, values) ← lift (getColumnMapping identifier);
  let query := "DELETE FROM " +:+ table +:+ " WHERE " +:+ whereClause in
  try_log ("Failed to delete " +:+ table +:+ ":")
    (result ← db_query db query values;
     match rowCount result with
     | Some 0 => throw (createNotFoundError table identifier)
     | _ => mret tt
     end).

(** *** Multiple entity operations *)

(** [filters ? this.buildFilterClause(filters) : { whereClause: "1=1", params: [] }] *)
Definition filterClauseOf (filters : option Obj) : string * list Value :=
  match filters with
  | Some filters => buildFilterClause filters
  | None => ("1=1", [])
  end.

(** The statement and the parameter array that [findAll] has assembled
    when it reaches its [try] block. *)
Definition findAll_statement (filters : option Obj) (options : option Options)
  : string * list Value :=
  let '(whereClause, params) := filterClauseOf filters in
  let query := "SELECT * FROM " +:+ table +:+ " WHERE " +:+ whereClause in
  let query :=
    match options ≫= orderBy with
    | Some field =>
        if truthy (VStr field) then
          let orderColumn := getColumnName field in
          query +:+ " ORDER BY " +:+ orderColumn +:+ " " +:+
            direction_text (default ASC (options ≫= orderDirection))
        else query
    | None => query
    end in
  let '(query, params) :=
    match options ≫= limit with
    | Some n =>
        if truthy (VNum n)
        then (query +:+ " LIMIT $" +:+ pretty (length params + 1),
              params ++ [VNum n])
        else (query, params)
    | None => (query, params)
    end in
  let '(query, params) :=
    match options ≫= offset with
    | Some n =>
        if truthy (VNum n)
        then (query +:+ " OFFSET $" +:+ pretty (length params + 1),
              params ++ [VNum n])
        else (query, params)
    | None => (query, params)
    end in
  (query, params).

Definition findAll (filters : option Obj) (options : option Options)
  : Eff (list Obj) :=
  let '(query, params) := findAll_statement filters options in
  try_log ("Failed to find all " +:+ table +:+ ":")
    (result ← db_query db query params;
     mret (mapRowsToEntities (rows result))).

Definition getAll (options : option Options) : Eff (list Obj) :=
  findAll None options.

(** [`${result.rowCount}`] *)
Definition rowCount_text (result : QueryResult) : string :=
  match rowCount result with
  | Some n => pretty n
  | None => "null"
  end.

(** [filters] is [None] when the caller passes [undefined] or [null]. *)
Definition deleteAll (filters : option Obj) : Eff nat :=
  match filters with
  | None =>
      throw (Error ("deleteAll requires at least one filter. Use drop() to delete all records from " +:+ table))
  | Some filters =>
      if length (filters.*1) =? 0 then
        throw (Error ("deleteAll requires at least one filter. Use drop() to delete all records from " +:+ table))
      else
        let '(whereClause, params) := buildFilterClause filters in
        let query := "DELETE FROM " +:+ table +:+ " WHERE " +:+ whereClause in
        try_log ("Failed to delete from " +:+ table +:+ ":")
          (result ← db_query db query params;
           _ ← log (LogInfo ("Deleted " +:+ rowCount_text result +:+ " "
                             +:+ table +:+ " record(s)"));
           mret (default 0 (rowCount result)))
  end.

End BaseQueries.

(** ** The class [BaseQueries], continued: bulk update, inserts, utilities *)

(** [upsert]'s [conflictTarget]: one key, or an array of keys. *)
Inductive ConflictTarget : Type :=
  | OneKey (key : string)
  | ManyKeys (keys : list string).

Section BaseQueriesContinued.

Variable table : string.
Variable COLUMN_MAP : option (gmap string string).
Variable db : Pool.

(** The statement and the parameter array of [updateAll]; its [SET]
    assignments are [`${mapping.column} = $${params.length + index + 1}`]. *)
Definition updateAll_statement (updates : Obj) (filters : option Obj)
  : string * list Value :=
  let '(whereClause, params) := filterClauseOf COLUMN_MAP filters in
  let updateMappings := getUpdateMapping COLUMN_MAP updates in
  let setClauses := setClauses 1 params updateMappings in
  let query :=
    nl +:+ "UPDATE " +:+ table +:+
    nl +:+ "SET " +:+ String.concat ", " setClauses +:+
    nl +:+ "WHERE " +:+ whereClause in
  let allParams := params ++ updateMappings.*2 in
  (query, allParams).

Definition updateAll (updates : Obj) (filters : option Obj) : Eff nat :=
  let '(query, allParams) := updateAll_statement updates filters in
  try_log ("Failed to update " +:+ table +:+ ":")
    (result ← db_query db query allParams;
     _ ← log (LogInfo ("Updated " +:+ rowCount_text result +:+ " "
                       +:+ table +:+ " record(s)"));
     mret (default 0 (rowCount result))).

(** [createMappings.map((_, index) => `$${index + 1}`)] *)
Definition insertPlaceholders (createMappings : list (string * Value))
  : list string :=
  imap (fun index _ => "$" +:+ pretty (index + 1)) createMappings.

(** The statement and the values of [create]. *)
Definition create_statement (data : Obj) : string * list Value :=
  let createMappings := getCreateMapping COLUMN_MAP data in
  let columns := String.concat ", " (createMappings.*1) in
  let placeholders := String.concat ", " (insertPlaceholders createMappings) in
  let values := createMappings.*2 in
  let query :=
    "INSERT INTO " +:+ table +:+ " (" +:+ columns +:+ ") VALUES ("
    +:+ placeholders +:+ ")" in
  (query, values).

Definition create (data : Obj) : Eff unit :=
  let '(query, values) := create_statement data in
  try_log ("Failed to create " +:+ table +:+ ":")
    (_ ← db_query db query values;
     mret tt).

(** The statement and the values of [createAndReturn]. *)
Definition createAndReturn_statement (data : Obj) : string * list Value :=
  let createMappings := getCreateMapping COLUMN_MAP data in
  let columns := String.concat ", " (createMappings.*1) in
  let placeholders := String.concat ", " (insertPlaceholders createMappings) in
  let values := createMappings.*2 in
  let query :=
    "INSERT INTO " +:+ table +:+ " (" +:+ columns +:+ ") VALUES ("
    +:+ placeholders +:+ ") RETURNING *" in
  (query, values).

(** [this.mapRowToEntity(result.rows[0])], which throws on a missing row. *)
Definition firstRowToEntity (result : QueryResult) : Eff Obj :=
  match rows result with
  | row :: _ => mret (mapRowToEntity row)
  | [] => throw (TypeError "Cannot convert undefined or null to object")
  end.

Definition createAndReturn (data : Obj) : Eff Obj :=
  let '(query, values) := createAndReturn_statement data in
  try_log ("Failed to create " +:+ table +:+ ":")
    (result ← db_query db query values;
     firstRowToEntity result).

(** The statement and the values of [upsert]. An array, even an empty one,
    is truthy, so [updateFields] is used whenever it is given. *)
Definition upsert_statement (data : Obj) (conflictTarget : ConflictTarget)
    (updateFields : option (list string)) : string * list Value :=
  let createMappings := getCreateMapping COLUMN_MAP data in
  let columns := String.concat ", " (createMappings.*1) in
  let placeholders := String.concat ", " (insertPlaceholders createMappings) in
  let values := createMappings.*2 in
  let conflictColumns :=
    match conflictTarget with
    | ManyKeys keys => String.concat ", " (getColumnName COLUMN_MAP <$> keys)
    | OneKey key => getColumnName COLUMN_MAP key
    end in
  let fieldsToUpdate :=
    match updateFields with
    | Some updateFields => getColumnName COLUMN_MAP <$> updateFields
    | None => createMappings.*1
    end in
  let updateClause :=
    String.concat ", "
      ((fun col => col +:+ " = EXCLUDED." +:+ col) <$> fieldsToUpdate) in
  let query :=
    nl +:+ "INSERT INTO " +:+ table +:+ " (" +:+ columns +:+ ")" +:+
    nl +:+ "VALUES (" +:+ placeholders +:+ ")" +:+
    nl +:+ "ON CONFLICT (" +:+ conflictColumns +:+ ")" +:+
    nl +:+ "DO UPDATE SET " +:+ updateClause +:+
    nl +:+ "RETURNING *" in
  (query, values).

Definition upsert (data : Obj) (conflictTarget : ConflictTarget)
    (updateFields : option (list string)) : Eff Obj :=
  let '(query, values) := upsert_statement data conflictTarget updateFields in
  try_log ("Failed to upsert " +:+ table +:+ ":")
    (result ← db_query db query values;
     firstRowToEntity result).

(** [result.rows[0].count ?? 0] *)
Definition count (filters : option Obj) : Eff Value :=
  let '(whereClause, params) := filterClauseOf COLUMN_MAP filters in
  let query :=
    "SELECT COUNT(*) FROM " +:+ table +:+ " WHERE " +:+ whereClause in
  try_log ("Failed to count " +:+ table +:+ ":")
    (result ← db_query db query params;
     match rows result with
     | row :: _ =>
         let count := obj_get row "count" in
         mret (if defined count then count else VNum 0)
     | [] => throw (TypeError
               "Cannot read properties of undefined (reading 'count')")
     end).

(** [params] is [None] when the caller leaves it out; the statement is then
    recorded with an empty parameter list. *)
Definition raw (query : string) (params : option (list Value))
  : Eff (list Obj) :=
  try_log ("Failed to execute raw query on " +:+ table +:+ ":")
    (result ← db_query db query (default [] params);
     mret (mapRowsToEntities (rows result))).

End BaseQueriesContinued.

(** ** The reverse of the row mapper

    Modelled from the spec: [entityToRow] is named by the design (section 8)
    but the class has no such method. It is the key-wise image of an entity
    under the storage direction of the naming transform, values untouched,
    written the way [mapRowToEntity] is. *)
Definition entityToRow (COLUMN_MAP : option (gmap string string)) (entity : Obj)
  : Obj :=
  fold_left (fun row '(key, value) =>
               obj_set row (getColumnName COLUMN_MAP key) value)
            entity [].

(** ** Boundaries in field names

    The boundaries the design calls ambiguous are a leading capital, two
    capitals in a row, and a capital next to a digit. *)

Fixpoint all_chars (p : ascii -> bool) (s : string) : bool :=
  match s with
  | EmptyString => true
  | String c s' => p c && all_chars p s'
  end.

(** Some two neighbouring characters of [s] are related by [r]. *)
Fixpoint adjacent (r : ascii -> ascii -> bool) (s : string) : bool :=
  match s with
  | String a ((String b _) as s') => r a b || adjacent r s'
  | _ => false
  end.

Definition leading_capital (s : string) : bool :=
  match s with
  | String c _ => is_upper c
  | EmptyString => false
  end.

Definition consecutive_capitals : string -> bool :=
  adjacent (fun a b => is_upper a && is_upper b).

Definition digit_boundary : string -> bool :=
  adjacent (fun a b => (is_digit a && is_upper b) || (is_upper a && is_digit b)).

Definition ambiguous_boundary (s : string) : bool :=
  leading_capital s || consecutive_capitals s || digit_boundary s.

(** The only pattern [snakeToCamel] rewrites: an underscore followed by a
    lower-case letter. *)
Definition snake_boundary : string -> bool :=
  adjacent (fun a b => (a =? "_")%char && is_lower b).

(** The field has no entry in the override table. *)
Definition no_override (COLUMN_MAP : option (gmap string string)) (key : string)
  : Prop :=
  COLUMN_MAP ≫= (fun m => m !! key) = None.

(** The string starts with a lower-case letter. *)
Definition head_lower (s : string) : bool :=
  match s with
  | String d _ => is_lower d
  | EmptyString => false
  end.

(** ** Vocabulary of the statements about the builders *)

Section Vocabulary.

Variable COLUMN_MAP : option (gmap string string).

(** The entries a filter keeps: the value is neither [undefined] nor
    [null] and the column name is not the empty string. *)
Definition included (filters : Obj) : Obj :=
  List.filter
    (fun '(key, value) =>
       defined value && negb (String.eqb (getColumnName COLUMN_MAP key) ""))
    filters.

(** [column = $n] for each entry in turn, [n] counting up from [start]. *)
Definition placeholder_conditions (start : nat) (entries : Obj) : list string :=
  imap (fun i entry =>
          getColumnName COLUMN_MAP entry.1 +:+ " = $" +:+ pretty (start + i))
       entries.

(** The first key whose column name is the empty string. *)
Fixpoint invalid_key (entries : Obj) : option string :=
  match entries with
  | [] => None
  | (key, _) :: entries' =>
      if String.eqb (getColumnName COLUMN_MAP key) "" then Some key
      else invalid_key entries'
  end.

(** What [findAll] is asked for: an order field, a limit, an offset.
    The empty field name and the number zero count as not asked. *)
Definition requested_order (options : option Options) : option string :=
  field ← options ≫= orderBy;
  if String.eqb field "" then None else Some field.

Definition requested_limit (options : option Options) : option Z :=
  n ← options ≫= limit;
  if (n =? 0)%Z then None else Some n.

Definition requested_offset (options : option Options) : option Z :=
  n ← options ≫= offset;
  if (n =? 0)%Z then None else Some n.

Definition requested_direction (options : option Options) : Direction :=
  default ASC (options ≫= orderDirection).

Definition order_clause (options : option Options) : string :=
  match requested_order options with
  | Some field =>
      " ORDER BY " +:+ getColumnName COLUMN_MAP field +:+ " "
      +:+ direction_text (requested_direction options)
  | None => ""
  end.

(** [used] placeholders are taken by the clauses before. *)
Definition limit_clause (used : nat) (options : option Options) : string :=
  match requested_limit options with
  | Some _ => " LIMIT $" +:+ pretty (used + 1)
  | None => ""
  end.

Definition offset_clause (used : nat) (options : option Options) : string :=
  match requested_offset options with
  | Some _ => " OFFSET $" +:+ pretty (used + 1)
  | None => ""
  end.

Definition option_values (n : option Z) : list Value :=
  match n with
  | Some n => [VNum n]
  | None => []
  end.

End Vocabulary.

(** The store answered one of the statements of the trace with a row count
    of zero. *)
Definition store_reports_zero (db : Pool) (trace : list Event) : Prop :=
  exists s rows,
    Query s ∈ trace /\ db s = Return {| rows := rows; rowCount := Some 0 |}.

(** ** Vocabulary of the statements about the row mapper and the inserts *)

(** No character of the string is an upper-case letter. *)
Definition no_capitals (s : string) : bool :=
  all_chars (fun c => negb (is_upper c)) s.

(** The value the row mapper leaves under the entity key [k]: that of the
    last column of the row whose camelCase name is [k]. *)
Definition last_write (k : string) (row : Obj) : Value :=
  fold_left (fun found '(column, value) =>
               if String.eqb (snakeToCamel column) k then value else found)
            row VUndefined.

(** The field has the empty string as its override. *)
Definition empty_override (COLUMN_MAP : option (gmap string string))
    (key : string) : Prop :=
  COLUMN_MAP ≫= (fun m => m !! key) = Some "".

(** The text [column = $n]. *)
Definition assignment (column : string) (n : nat) : string :=
  column +:+ " = $" +:+ pretty n.

(** The value a parameter array binds to the placeholder [$n]. *)
Definition parameter (values : list Value) (n : nat) : option Value :=
  match n with
  | 0 => None
  | S i => values !! i
  end.

(** The entries an optional filter object keeps. *)
Definition kept_filters (COLUMN_MAP : option (gmap string string))
    (filters : option Obj) : Obj :=
  match filters with
  | Some filters => included COLUMN_MAP filters
  | None => []
  end.

(** * Properties *)

(** ** Characters *)

Ltac by_ascii c :=
  destruct c as [[] [] [] [] [] [] [] []]; vm_compute; intros;
  solve [reflexivity | discriminate | congruence].

Lemma toUpperCase_toLowerCase (c : ascii) :
  is_upper c = true -> toUpperCase (toLowerCase c) = c.
Proof. revert c. intros c. by_ascii c. Qed.

Lemma is_lower_toLowerCase (c : ascii) :
  is_upper c = true -> is_lower (toLowerCase c) = true.
Proof. by_ascii c. Qed.

Lemma is_upper_not_underscore (c : ascii) :
  is_upper c = true -> (c =? "_")%char = false.
Proof. by_ascii c. Qed.

Lemma is_lower_underscore : is_lower "_" = false.
Proof. reflexivity. Qed.

(** ** The default rewrite, one direction after the other *)

Lemma snakeToCamel_skip (c : ascii) (rest : string) :
  (c =? "_")%char && head_lower rest = false ->
  snakeToCamel (String c rest) = String c (snakeToCamel rest).
Proof.
  destruct rest as [|d rest']; simpl; intros H.
  - reflexivity.
  - rewrite H. reflexivity.
Qed.

Lemma snakeToCamel_match (letter : ascii) (rest : string) :
  is_lower letter = true ->
  snakeToCamel (String "_" (String letter rest))
  = String (toUpperCase letter) (snakeToCamel rest).
Proof. intros H. simpl. rewrite H. reflexivity. Qed.

Lemma adjacent_tail (r : ascii -> ascii -> bool) (c : ascii) (s : string) :
  adjacent r (String c s) = false -> adjacent r s = false.
Proof.
  destruct s as [|d s']; simpl; [reflexivity|].
  intros H. apply orb_false_elim in H. destruct H as [_ H]. exact H.
Qed.

Lemma head_lower_camelToSnake (s : string) :
  head_lower s = false -> head_lower (camelToSnake s) = false.
Proof.
  destruct s as [|d s']; simpl; [reflexivity|].
  intros H. destruct (is_upper d); simpl; [reflexivity | exact H].
Qed.

Lemma snakeToCamel_camelToSnake (s : string) :
  snake_boundary s = false -> snakeToCamel (camelToSnake s) = s.
Proof.
  induction s as [|c s IH]; intros Hb; [reflexivity|].
  assert (Hs : snake_boundary s = false) by exact (adjacent_tail _ _ _ Hb).
  simpl camelToSnake. destruct (is_upper c) eqn:Hu.
  - rewrite snakeToCamel_match by (apply is_lower_toLowerCase; exact Hu).
    rewrite toUpperCase_toLowerCase by exact Hu.
    rewrite IH by exact Hs. reflexivity.
  - rewrite snakeToCamel_skip; [rewrite IH by exact Hs; reflexivity|].
    destruct (c =? "_")%char eqn:Hc; [simpl|reflexivity].
    apply head_lower_camelToSnake.
    destruct s as [|d s']; [reflexivity|].
    unfold snake_boundary in Hb. simpl in Hb. rewrite Hc in Hb.
    apply orb_false_elim in Hb. destruct Hb as [Hb _]. exact Hb.
Qed.

Lemma getColumnName_default (COLUMN_MAP : option (gmap string string))
    (key : string) :
  column_override COLUMN_MAP key = None ->
  getColumnName COLUMN_MAP key = camelToSnake key.
Proof. unfold getColumnName. intros ->. reflexivity. Qed.

(** ** Objects written one property at a time *)

Lemma obj_set_fresh (o : Obj) (k : string) (v : Value) :
  k ∉ o.*1 -> obj_set o k v = o ++ [(k, v)].
Proof.
  induction o as [|[k' v'] o IH]; csimpl; intros Hk; [reflexivity|].
  apply not_elem_of_cons in Hk as [Hne Hk].
  destruct (String.eqb_spec k' k) as [->|_]; [done|].
  by rewrite IH.
Qed.

Lemma fold_obj_set_fresh (f : string -> string) (l acc : Obj) :
  NoDup (acc.*1 ++ (f <$> l.*1)) ->
  fold_left (fun o '(k, v) => obj_set o (f k) v) l acc
  = acc ++ ((fun '(k, v) => (f k, v)) <$> l).
Proof.
  revert acc. induction l as [|[k v] l IH]; intros acc Hnd; csimpl.
  - by rewrite app_nil_r.
  - csimpl in Hnd.
    apply NoDup_app in Hnd as (Hacc & Hdisj & Hl).
    apply NoDup_cons in Hl as [Hk Hl].
    rewrite obj_set_fresh by (intros Hin; apply (Hdisj _ Hin); left).
    rewrite IH; [by rewrite <- app_assoc|].
    rewrite fmap_app. csimpl.
    apply NoDup_app. split_and!.
    + apply NoDup_app. split_and!; [done| |apply NoDup_singleton].
      intros x Hx Hx'. apply list_elem_of_singleton in Hx' as ->.
      apply (Hdisj _ Hx). left.
    + intros x Hx Hx'. apply elem_of_app in Hx as [Hx|Hx].
      * apply (Hdisj _ Hx). by right.
      * by apply list_elem_of_singleton in Hx as ->.
    + done.
Qed.

Lemma obj_set_keys (o : Obj) (k k' : string) (v : Value) :
  k ∈ (obj_set o k' v).*1 <-> k ∈ o.*1 \/ k = k'.
Proof.
  induction o as [|[a b] o IH]; csimpl.
  - rewrite list_elem_of_singleton, elem_of_nil. tauto.
  - destruct (String.eqb_spec a k') as [->|Hne]; csimpl.
    + rewrite !elem_of_cons. tauto.
    + rewrite !elem_of_cons, IH. tauto.
Qed.


Lemma NoDup_fmap_retract {A B : Type} (f : A -> B) (g : B -> A) (l : list A) :
  Forall (fun x => g (f x) = x) l -> NoDup l -> NoDup (f <$> l).
Proof.
  induction l as [|x l IH]; csimpl; intros Hg Hnd; [constructor|].
  apply Forall_cons in Hg as [Hx Hg].
  apply NoDup_cons in Hnd as [Hnotin Hnd].
  apply NoDup_cons. split; [|by apply IH].
  intros Hin. apply list_elem_of_fmap in Hin as (y & Heq & Hy).
  apply Hnotin.
  rewrite Forall_forall in Hg.
  rewrite <- Hx, Heq, (Hg y Hy). exact Hy.
Qed.

(** ** The default rewrite, the other way round *)


Lemma is_upper_toUpperCase (c : ascii) :
  is_lower c = true -> is_upper (toUpperCase c) = true.
Proof. by_ascii c. Qed.

Lemma is_upper_toLowerCase (c : ascii) :
  is_upper c = true -> is_upper (toLowerCase c) = false.
Proof. by_ascii c. Qed.

Lemma is_upper_not_lower (c : ascii) :
  is_upper c = true -> is_lower c = false.
Proof. by_ascii c. Qed.

Lemma underscore_test (c : ascii) :
  (c =? "_")%char = true -> c = "_"%char.
Proof. by_ascii c. Qed.

Lemma snake_boundary_cons (c : ascii) (s : string) :
  snake_boundary (String c s)
  = ((c =? "_")%char && head_lower s) || snake_boundary s.
Proof.
  destruct s as [|d s']; [|reflexivity].
  unfold snake_boundary. simpl. by rewrite andb_false_r.
Qed.

(** [snakeToCamel] on a string that starts like a match, and on one that
    does not. *)
Lemma snakeToCamel_cases (c : ascii) (rest : string) :
  (exists letter rest',
      c = "_"%char /\ rest = String letter rest' /\ is_lower letter = true
      /\ snakeToCamel (String c rest)
         = String (toUpperCase letter) (snakeToCamel rest'))
  \/ ((c =? "_")%char && head_lower rest = false
      /\ snakeToCamel (String c rest) = String c (snakeToCamel rest)).
Proof.
  destruct ((c =? "_")%char && head_lower rest) eqn:Hm.
  - left. apply andb_prop in Hm as [Hc Hl].
    destruct rest as [|letter rest']; [discriminate|]. simpl in Hl.
    apply underscore_test in Hc as ->.
    exists letter, rest'. split_and!; try done.
    by apply snakeToCamel_match.
  - right. split; [done|]. by apply snakeToCamel_skip.
Qed.

Lemma head_lower_snakeToCamel (s : string) :
  head_lower s = false -> head_lower (snakeToCamel s) = false.
Proof.
  destruct s as [|c rest]; [done|]. intros Hc.
  destruct (snakeToCamel_cases c rest)
    as [(letter & rest' & _ & _ & Hl & ->) | [_ ->]]; [|exact Hc].
  simpl. apply is_upper_not_lower, is_upper_toUpperCase, Hl.
Qed.

(** Induction two characters at a time, as [snakeToCamel] recurses. *)
Lemma string_pair_ind (P : string -> Prop) :
  P EmptyString ->
  (forall c, P (String c EmptyString)) ->
  (forall c d s, P s -> P (String d s) -> P (String c (String d s))) ->
  forall s, P s.
Proof.
  intros Hnil Hone Hstep s.
  assert (H : P s /\ forall c, P (String c s)).
  { induction s as [|d s [IH1 IH2]]; [by split|].
    split; [apply IH2|]. intros c. by apply Hstep. }
  apply H.
Qed.

Lemma snakeToCamel_no_snake_boundary (s : string) :
  snake_boundary (snakeToCamel s) = false.
Proof.
  induction s as [|c|c d s IH1 IH2] using string_pair_ind; [done|done|].
  destruct (snakeToCamel_cases c (String d s))
    as [(letter & rest' & _ & Hrest & Hl & ->) | [Hm ->]].
  - injection Hrest as <- <-. rewrite snake_boundary_cons, IH1.
    by rewrite (is_upper_not_underscore _ (is_upper_toUpperCase _ Hl)).
  - rewrite snake_boundary_cons, IH2, orb_false_r.
    destruct (c =? "_")%char; [|done].
    rewrite andb_true_l in Hm. rewrite andb_true_l.
    by apply head_lower_snakeToCamel.
Qed.

Lemma snakeToCamel_fixed (s : string) :
  snake_boundary s = false -> snakeToCamel s = s.
Proof.
  induction s as [|c s IH]; [done|].
  rewrite snake_boundary_cons. intros H.
  apply orb_false_elim in H as [Hm Hs].
  rewrite snakeToCamel_skip by exact Hm. by rewrite IH.
Qed.

Lemma roundtrip_keys (COLUMN_MAP : option (gmap string string))
    (keys : list string) :
  Forall (fun key => column_override COLUMN_MAP key = None
                     /\ snake_boundary key = false) keys ->
  Forall (fun key => snakeToCamel (getColumnName COLUMN_MAP key) = key) keys.
Proof.
  intros H. eapply Forall_impl; [exact H|]. intros key [Hno Hsb].
  rewrite (getColumnName_default _ _ Hno).
  by apply snakeToCamel_camelToSnake.
Qed.

(** A name comes back from its default column exactly when it holds no
    underscore followed by a lower-case letter. *)
Lemma roundtrip_iff (name : string) :
  snakeToCamel (camelToSnake name) = name <-> snake_boundary name = false.
Proof.
  split.
  - intros H. rewrite <- H. apply snakeToCamel_no_snake_boundary.
  - apply snakeToCamel_camelToSnake.
Qed.

(** ** Naming transform and row mapper *)

(** C9, as amended. Take an entity whose field names are not found by the
    override lookup (no entry of their own in the table and, when there is
    a table, no member of [Object.prototype] of that name), hold no
    underscore immediately followed by a lower-case letter, and have a
    column other than [__proto__], a name no property write gives an
    object. Each field name, sent to its storage column and back, is the
    name itself, and the entity sent to a row ([entityToRow]) and back
    ([mapRowToEntity]) is the entity itself: same keys, same order, same
    values. A name comes back from its default column exactly when it holds
    no such underscore: consecutive capitals, a leading capital or digits
    do not matter. The keys of an object are pairwise distinct. *)
Theorem naming_roundtrip (COLUMN_MAP : option (gmap string string))
    (entity : Obj) :
  NoDup entity.*1 ->
  Forall (fun key => column_override COLUMN_MAP key = None
                     /\ snake_boundary key = false
                     /\ camelToSnake key <> "__proto__")
         entity.*1 ->
  Forall (fun key => snakeToCamel (camelToSnake key) = key
                     /\ snakeToCamel (getColumnName COLUMN_MAP key) = key)
         entity.*1
  /\ mapRowToEntity (entityToRow COLUMN_MAP entity) = entity
  /\ (forall name,
         snakeToCamel (camelToSnake name) = name
         <-> snake_boundary name = false).
Proof.
  intros Hnd Hnames.
  assert (Hkeys : Forall (fun key => column_override COLUMN_MAP key = None
                                     /\ snake_boundary key = false)
                         entity.*1).
  { eapply Forall_impl; [exact Hnames|]. by intros key (Hno & Hsb & _). }
  clear Hnames.
  pose proof (roundtrip_keys _ _ Hkeys) as Hrt.
  split_and!; [| |apply roundtrip_iff].
  { rewrite Forall_forall in Hkeys, Hrt. apply Forall_forall.
    intros key Hin. specialize (Hrt key Hin).
    destruct (Hkeys key Hin) as [Hno _].
    split; [|exact Hrt].
    by rewrite (getColumnName_default _ _ Hno) in Hrt. }
  assert (Hrow : entityToRow COLUMN_MAP entity
                 = (fun '(k, v) => (getColumnName COLUMN_MAP k, v)) <$> entity).
  { unfold entityToRow.
    rewrite (fold_obj_set_fresh (getColumnName COLUMN_MAP) entity []); [done|].
    csimpl. by apply (NoDup_fmap_retract _ snakeToCamel). }
  rewrite Hrow. unfold mapRowToEntity.
  assert (Hcols : ((fun '(k, v) => (getColumnName COLUMN_MAP k, v)) <$> entity).*1
                  = getColumnName COLUMN_MAP <$> entity.*1).
  { rewrite <- !list_fmap_compose. apply list_fmap_ext.
    by intros i [k v] _. }
  rewrite (fold_obj_set_fresh snakeToCamel _ []).
  - csimpl. rewrite <- list_fmap_compose.
    clear Hrow Hcols Hnd Hkeys.
    induction entity as [|[k v] entity IH]; csimpl; [done|].
    csimpl in Hrt. apply Forall_cons in Hrt as [Hk Hrt].
    rewrite Hk. f_equal. by apply IH.
  - csimpl. rewrite Hcols, <- list_fmap_compose.
    assert (Hid : snakeToCamel ∘ getColumnName COLUMN_MAP <$> entity.*1
                  = entity.*1).
    { clear -Hrt. induction (entity.*1) as [|k ks IH]; csimpl; [done|].
      apply Forall_cons in Hrt as [Hk Hrt]. rewrite Hk. f_equal. by apply IH. }
    by rewrite Hid.
Qed.

Lemma naming_roundtrip_witness :
  let COLUMN_MAP : option (gmap string string) := Some {["userId" := "uid"]} in
  let ticket := [("ticketId", VNum 7); ("channelID", VStr "c1");
                 ("Status", VStr "open"); ("x1Y", VNull)] in
  NoDup ticket.*1
  /\ Forall (fun key => column_override COLUMN_MAP key = None
                        /\ snake_boundary key = false
                        /\ camelToSnake key <> "__proto__") ticket.*1
  /\ entityToRow COLUMN_MAP ticket
     = [("ticket_id", VNum 7); ("channel_i_d", VStr "c1");
        ("_status", VStr "open"); ("x1_y", VNull)]
  /\ mapRowToEntity (entityToRow COLUMN_MAP ticket) = ticket.
Proof.
  intros COLUMN_MAP ticket.
  assert (Hdistinct : NoDup ticket.*1)
    by (apply (bool_decide_unpack _); vm_compute; exact I).
  assert (Hnames : Forall (fun key => column_override COLUMN_MAP key = None
                                      /\ snake_boundary key = false
                                      /\ camelToSnake key <> "__proto__")
                          ticket.*1)
    by (repeat (apply Forall_cons; split; [by split_and!|]); constructor).
  split_and!; [exact Hdistinct | exact Hnames | reflexivity |].
  exact (proj1 (proj2 (naming_roundtrip COLUMN_MAP ticket Hdistinct Hnames))).
Defined.

(** C9, refuted as stated. The field name [created_at] has no entry in the
    override table and none of the boundaries the claim excludes: no
    leading capital, no two capitals in a row, no digit. Its column is
    [created_at], which the row mapper sends to [createdAt]: the entity
    does not come back unchanged. *)
Lemma created_at_does_not_round_trip :
  no_override None "created_at"
  /\ ambiguous_boundary "created_at" = false
  /\ getColumnName None "created_at" = "created_at"
  /\ snakeToCamel (getColumnName None "created_at") = "createdAt"
  /\ mapRowToEntity (entityToRow None [("created_at", VNum 1)])
     = [("createdAt", VNum 1)]
  /\ mapRowToEntity (entityToRow None [("created_at", VNum 1)])
     <> [("created_at", VNum 1)].
Proof. split_and!; try reflexivity. discriminate. Qed.




(** ** Strings and traces *)

Lemma append_assoc (a b c : string) : (a +:+ b) +:+ c = a +:+ (b +:+ c).
Proof.
  induction a as [|x a IH]; [reflexivity|].
  change (String x ((a +:+ b) +:+ c) = String x (a +:+ (b +:+ c))).
  by rewrite IH.
Qed.

Lemma append_nil_r (a : string) : a +:+ "" = a.
Proof.
  induction a as [|x a IH]; [reflexivity|].
  change (String x (a +:+ "") = String x a).
  by rewrite IH.
Qed.

Lemma queries_app (tr tr' : list Event) :
  queries (tr ++ tr') = queries tr ++ queries tr'.
Proof. apply omap_app. Qed.

(** ** The predicate builders *)

Section Builders.

Variable COLUMN_MAP : option (gmap string string).

Local Abbreviation column := (getColumnName COLUMN_MAP).

Lemma placeholder_conditions_lookup (start : nat) (entries : Obj) (i : nat) :
  placeholder_conditions COLUMN_MAP start entries !! i
  = (fun entry => column entry.1 +:+ " = $" +:+ pretty (start + i))
      <$> entries !! i.
Proof. unfold placeholder_conditions. apply list_lookup_imap. Qed.

Lemma placeholder_conditions_cons (start : nat) (key : string) (value : Value)
    (entries : Obj) :
  placeholder_conditions COLUMN_MAP start ((key, value) :: entries)
  = (column key +:+ " = $" +:+ pretty start)
      :: placeholder_conditions COLUMN_MAP (S start) entries.
Proof.
  unfold placeholder_conditions. rewrite imap_cons. csimpl.
  rewrite Nat.add_0_r. f_equal.
  apply imap_ext. intros i entry _. simpl. do 3 f_equal. lia.
Qed.

Lemma getColumnMapping_each_spec (entries : Obj) (index : nat)
    (conditions : list string) (values : list Value) :
  getColumnMapping_each COLUMN_MAP entries index conditions values
  = match invalid_key COLUMN_MAP entries with
    | Some key => Throw (Error ("Invalid column key: " +:+ key))
    | None =>
        Return (conditions
                  ++ placeholder_conditions COLUMN_MAP (index + 1) entries,
                values ++ entries.*2)
    end.
Proof.
  revert index conditions values.
  induction entries as [|[key value] entries IH]; intros index conds vals.
  - simpl. by rewrite !app_nil_r.
  - simpl. destruct (String.eqb (column key) ""); [reflexivity|].
    rewrite IH. destruct (invalid_key COLUMN_MAP entries); [reflexivity|].
    rewrite placeholder_conditions_cons, <- !app_assoc. simpl.
    by replace (S index + 1) with (S (index + 1)) by lia.
Qed.

Lemma getColumnMapping_spec (data : Obj) :
  data <> [] ->
  getColumnMapping COLUMN_MAP data
  = match invalid_key COLUMN_MAP data with
    | Some key => Throw (Error ("Invalid column key: " +:+ key))
    | None =>
        Return (String.concat " AND " (placeholder_conditions COLUMN_MAP 1 data),
                data.*2)
    end.
Proof.
  intros Hne. unfold getColumnMapping.
  destruct data as [|entry data]; [done|]. simpl length. simpl Nat.eqb.
  cbv iota. rewrite getColumnMapping_each_spec.
  by destruct (invalid_key COLUMN_MAP (entry :: data)).
Qed.

Lemma buildFilterClause_loop_spec (entries : Obj) (paramIndex : nat)
    (conditions : list string) (params : list Value) :
  buildFilterClause_loop COLUMN_MAP entries paramIndex conditions params
  = (conditions
       ++ placeholder_conditions COLUMN_MAP paramIndex
            (included COLUMN_MAP entries),
     params ++ (included COLUMN_MAP entries).*2).
Proof.
  revert paramIndex conditions params.
  induction entries as [|[key value] entries IH]; intros p conds ps.
  - simpl. by rewrite !app_nil_r.
  - simpl. destruct (defined value); simpl.
    + destruct (String.eqb (column key) ""); simpl.
      * apply IH.
      * rewrite IH, placeholder_conditions_cons, <- !app_assoc. simpl.
        by replace (p + 1) with (S p) by lia.
    + apply IH.
Qed.

Lemma buildFilterClause_spec (filters : Obj) :
  buildFilterClause COLUMN_MAP filters
  = (match included COLUMN_MAP filters with
     | [] => "1=1"
     | kept => String.concat " AND " (placeholder_conditions COLUMN_MAP 1 kept)
     end,
     (included COLUMN_MAP filters).*2).
Proof.
  unfold buildFilterClause. rewrite buildFilterClause_loop_spec. simpl.
  destruct (included COLUMN_MAP filters) as [|[key value] kept] eqn:Hk.
  - reflexivity.
  - by rewrite placeholder_conditions_cons.
Qed.

Lemma included_elem_of (filters : Obj) (key : string) (value : Value) :
  (key, value) ∈ included COLUMN_MAP filters
  <-> (key, value) ∈ filters
      /\ value <> VUndefined /\ value <> VNull /\ column key <> "".
Proof.
  unfold included. rewrite !list_elem_of_In, filter_In.
  destruct (String.eqb_spec (column key) "") as [Heq|Hne];
    destruct value; simpl; intuition congruence.
Qed.

Lemma included_idemp (filters : Obj) :
  included COLUMN_MAP (included COLUMN_MAP filters)
  = included COLUMN_MAP filters.
Proof.
  unfold included.
  induction filters as [|[key value] filters IH]; simpl; [reflexivity|].
  destruct (defined value && negb (String.eqb (column key) "")) eqn:Hk;
    simpl; [rewrite Hk; by f_equal | exact IH].
Qed.

End Builders.

(** C5. Both predicate builders number their conditions by position. For a
    non-empty mapping, the identifier builder ([getColumnMapping]) keeps
    every entry, unless some column name is empty and it throws; the filter
    builder ([buildFilterClause]) keeps the [included] entries. The i-th
    kept entry (from 0) becomes [column = $(i+1)], the conditions are joined
    with [" AND "] and nothing else, and the values come back in the order
    of the placeholders. The filters [{a: 1, b: 2}] give [a = $1 AND b = $2]
    with values [[1, 2]]. *)
Theorem predicate_builders_positional
    (COLUMN_MAP : option (gmap string string)) (data : Obj) :
  data <> [] ->
  (forall (entries : Obj) (i : nat),
      placeholder_conditions COLUMN_MAP 1 entries !! i
      = (fun entry =>
           getColumnName COLUMN_MAP entry.1 +:+ " = $" +:+ pretty (1 + i))
          <$> entries !! i)
  /\ getColumnMapping COLUMN_MAP data
     = match invalid_key COLUMN_MAP data with
       | Some key => Throw (Error ("Invalid column key: " +:+ key))
       | None =>
           Return (String.concat " AND "
                     (placeholder_conditions COLUMN_MAP 1 data),
                   data.*2)
       end
  /\ buildFilterClause COLUMN_MAP data
     = (match included COLUMN_MAP data with
        | [] => "1=1"
        | kept =>
            String.concat " AND " (placeholder_conditions COLUMN_MAP 1 kept)
        end,
        (included COLUMN_MAP data).*2)
  /\ buildFilterClause None [("a", VNum 1); ("b", VNum 2)]
     = ("a = $1 AND b = $2", [VNum 1; VNum 2])
  /\ getColumnMapping None [("a", VNum 1); ("b", VNum 2)]
     = Return ("a = $1 AND b = $2", [VNum 1; VNum 2]).
Proof.
  intros Hne. split_and!.
  - intros entries i. apply placeholder_conditions_lookup.
  - by apply getColumnMapping_spec.
  - apply buildFilterClause_spec.
  - reflexivity.
  - reflexivity.
Qed.

Lemma predicate_builders_positional_witness :
  let data := [("ticketId", VNum 7); ("closedAt", VNull); ("status", VStr "open")] in
  data <> []
  /\ getColumnMapping None data
     = Return ("ticket_id = $1 AND closed_at = $2 AND status = $3",
               [VNum 7; VNull; VStr "open"])
  /\ buildFilterClause None data
     = ("ticket_id = $1 AND status = $2", [VNum 7; VStr "open"]).
Proof.
  intros data.
  assert (Hne : data <> []) by discriminate.
  destruct (predicate_builders_positional None data Hne) as (_ & Hid & Hf & _).
  split_and!; [exact Hne | rewrite Hid; reflexivity | rewrite Hf; reflexivity].
Defined.

(** C2, as amended. The filter builder skips an entry whose value is
    [undefined] or [null], and one whose column name is empty; every other
    entry is kept, as [column = $n] with its value bound. The builder does
    on the kept entries what it does on all of them, and when none is kept
    the condition is [1=1] and the parameter list is empty. *)
Theorem buildFilterClause_skips_undefined_and_null
    (COLUMN_MAP : option (gmap string string)) (filters : Obj) :
  (forall key value,
      (key, value) ∈ included COLUMN_MAP filters
      <-> (key, value) ∈ filters
          /\ value <> VUndefined /\ value <> VNull
          /\ getColumnName COLUMN_MAP key <> "")
  /\ buildFilterClause COLUMN_MAP filters
     = buildFilterClause COLUMN_MAP (included COLUMN_MAP filters)
  /\ (buildFilterClause COLUMN_MAP filters).2 = (included COLUMN_MAP filters).*2
  /\ (buildFilterClause COLUMN_MAP filters).1
     = (if decide (included COLUMN_MAP filters = []) then "1=1"
        else String.concat " AND "
               (placeholder_conditions COLUMN_MAP 1
                  (included COLUMN_MAP filters)))
  /\ (included COLUMN_MAP filters = [] ->
      buildFilterClause COLUMN_MAP filters = ("1=1", [])).
Proof.
  split_and!.
  - apply included_elem_of.
  - by rewrite (buildFilterClause_spec _ (included _ _)), included_idemp,
      buildFilterClause_spec.
  - by rewrite buildFilterClause_spec.
  - rewrite buildFilterClause_spec. simpl.
    by destruct (included COLUMN_MAP filters).
  - intros Hnone. by rewrite buildFilterClause_spec, Hnone.
Qed.

(** C2, refuted as stated. A filter on an explicit [null] is not bound as
    [closed_at = $1] with the parameter [null]: the entry is skipped like an
    [undefined] one, and the condition is [1=1] with no parameter. *)
Lemma buildFilterClause_drops_null :
  buildFilterClause None [("closedAt", VNull)] = ("1=1", [])
  /\ buildFilterClause None [("closedAt", VNull)]
     <> ("closed_at = $1", [VNull]).
Proof. split; [reflexivity | discriminate]. Qed.

(** ** The operations *)

Section Operations.

Variable table : string.
Variable COLUMN_MAP : option (gmap string string).
Variable db : Pool.

Lemma queries_snoc_query (tr : list Event) (s : Stmt) :
  queries (tr ++ [Query s]) = queries tr ++ [s].
Proof. by rewrite queries_app. Qed.

Lemma queries_snoc_error (tr : list Event) (msg : string) (e : JsError) :
  queries (tr ++ [LogError msg e]) = queries tr.
Proof. rewrite queries_app. simpl. by rewrite app_nil_r. Qed.

Lemma queries_snoc_info (tr : list Event) (msg : string) :
  queries (tr ++ [LogInfo msg]) = queries tr.
Proof. rewrite queries_app. simpl. by rewrite app_nil_r. Qed.

Lemma setClauses_lookup (shift : nat) (identifierValues : list Value)
    (updateMappings : list (string * Value)) (i : nat) :
  setClauses shift identifierValues updateMappings !! i
  = (fun mapping =>
       mapping.1 +:+ " = $" +:+ pretty (length identifierValues + i + shift))
      <$> updateMappings !! i.
Proof. unfold setClauses. apply list_lookup_imap. Qed.

Lemma params_lookup_update (identifierValues : list Value)
    (updateMappings : list (string * Value)) (i : nat) :
  (identifierValues ++ updateMappings.*2) !! (length identifierValues + i)
  = snd <$> updateMappings !! i.
Proof.
  rewrite lookup_app_r by lia.
  replace (length identifierValues + i - length identifierValues) with i by lia.
  apply list_lookup_fmap.
Qed.

(** The statement [findAll] sends, in closed form. *)
Lemma findAll_statement_spec (filters : option Obj) (options : option Options) :
  let clause := filterClauseOf COLUMN_MAP filters in
  let lim := requested_limit options in
  let off := requested_offset options in
  findAll_statement table COLUMN_MAP filters options
  = (("SELECT * FROM " +:+ table +:+ " WHERE " +:+ clause.1)
       +:+ order_clause COLUMN_MAP options
       +:+ limit_clause (length clause.2) options
       +:+ offset_clause (length clause.2 + length (option_values lim)) options,
     clause.2 ++ option_values lim ++ option_values off).
Proof.
  intros clause lim off. subst lim off.
  unfold findAll_statement, order_clause, limit_clause, offset_clause,
    requested_order, requested_limit, requested_offset, requested_direction.
  fold clause. destruct clause as [whereClause params]. simpl fst. simpl snd.
  destruct options as [[[lim|] [off|] [field|] dir]|]; csimpl;
    repeat match goal with
      | |- context [String.eqb ?s ""] => destruct (String.eqb s ""); csimpl
      | |- context [(?n =? 0)%Z] => destruct (n =? 0)%Z; csimpl
      end;
    rewrite ?length_app, ?append_assoc, ?append_nil_r, ?app_nil_r,
      ?Nat.add_0_r, <- ?app_assoc;
    reflexivity.
Qed.

Ltac trace_inv H :=
  repeat match type of H with
    | _ ∈ _ :: _ => apply elem_of_cons in H as [H|H]; [try discriminate H|]
    | _ ∈ [] => by apply elem_of_nil in H
    end.

(** Unfolds one operation down to the answer of the pool. *)
Ltac run_operation :=
  unfold run, try_log, db_query, mbind, Eff_bind, eff_bind, mret, Eff_ret,
    eff_ret, throw, lift, log, createNotFoundError; simpl.

(** The statement [updateAndReturn] sends once the identifier is mapped. *)
Lemma updateAndReturn_statement (identifier updates : Obj)
    (whereClause : string) (identifierValues : list Value) (tr : list Event) :
  getColumnMapping COLUMN_MAP identifier = Return (whereClause, identifierValues) ->
  queries (updateAndReturn table COLUMN_MAP db identifier updates tr).2
  = queries tr ++
    [{| text :=
          nl +:+ "UPDATE " +:+ table +:+
          nl +:+ "SET " +:+
            String.concat ", "
              (setClauses 2 identifierValues
                 (getUpdateMapping COLUMN_MAP updates)) +:+
          nl +:+ "WHERE " +:+ whereClause +:+
          nl +:+ "RETURNING *";
        values := identifierValues ++ (getUpdateMapping COLUMN_MAP updates).*2 |}].
Proof.
  intros Hm. unfold updateAndReturn. rewrite Hm. run_operation.
  match goal with |- context [db ?s] => destruct (db s) as [[rs [[|n]|]]|e] end;
    simpl; try destruct rs; simpl;
    rewrite ?queries_snoc_error, ?queries_snoc_query; reflexivity.
Qed.

(** C1, on the code. [updateAndReturn] binds the identifier values and then
    the update values, as the claim says, but numbers the [SET] placeholders
    one too far: with k identifier values, the assignment number i (from 0)
    is written [$(k+i+2)], while its value is the element number k+i (from
    0) of the parameter array, that is position k+i+1. For the identifier
    [{id: 1}] and the update [{status: "closed"}] the statement says
    [SET status = $3 WHERE id = $1] and carries two parameters; [update]
    says [SET status = $2] for the same call. *)
Theorem updateAndReturn_placeholders_past_parameters :
  queries (run (updateAndReturn "tickets" None db
                  [("id", VNum 1)] [("status", VStr "closed")])).2
  = [{| text := nl +:+ "UPDATE tickets" +:+ nl +:+ "SET status = $3"
                +:+ nl +:+ "WHERE id = $1" +:+ nl +:+ "RETURNING *";
        values := [VNum 1; VStr "closed"] |}]
  /\ queries (run (update "tickets" None db
                     [("id", VNum 1)] [("status", VStr "closed")])).2
     = [{| text := nl +:+ "UPDATE tickets" +:+ nl +:+ "SET status = $2"
                   +:+ nl +:+ "WHERE id = $1";
           values := [VNum 1; VStr "closed"] |}]
  /\ (forall (identifierValues : list Value)
        (updateMappings : list (string * Value)) (i : nat),
         setClauses 2 identifierValues updateMappings !! i
         = (fun mapping =>
              mapping.1 +:+ " = $"
              +:+ pretty (length identifierValues + i + 2))
             <$> updateMappings !! i
         /\ (identifierValues ++ updateMappings.*2)
              !! (length identifierValues + i)
            = snd <$> updateMappings !! i).
Proof.
  split_and!.
  - unfold updateAndReturn. run_operation.
    match goal with |- context [db ?s] => destruct (db s) as [[rs [[|n]|]]|e] end;
      simpl; try destruct rs; reflexivity.
  - unfold update. run_operation.
    match goal with |- context [db ?s] => destruct (db s) as [[rs [[|n]|]]|e] end;
      reflexivity.
  - intros identifierValues updateMappings i. split.
    + apply setClauses_lookup.
    + apply params_lookup_update.
Qed.

(** C3. With an identifier of zero entries, every single-row operation
    throws the error "Identifier object cannot be empty" and leaves the
    trace as it found it: no statement reaches the pool and nothing is
    logged. *)
Theorem empty_identifier_rejected (updates : Obj) (tr : list Event) :
  let rejected := Error "Identifier object cannot be empty" in
  find table COLUMN_MAP db [] tr = (Throw rejected, tr)
  /\ get table COLUMN_MAP db [] tr = (Throw rejected, tr)
  /\ exists_ table COLUMN_MAP db [] tr = (Throw rejected, tr)
  /\ update table COLUMN_MAP db [] updates tr = (Throw rejected, tr)
  /\ updateAndReturn table COLUMN_MAP db [] updates tr = (Throw rejected, tr)
  /\ delete table COLUMN_MAP db [] tr = (Throw rejected, tr).
Proof. by split_and!. Qed.

(** What [deleteAll] does with a filter of at least one entry. *)
Lemma deleteAll_run (entry : string * Value) (rest : Obj) (tr : list Event) :
  let clause := buildFilterClause COLUMN_MAP (entry :: rest) in
  let stmt := {| text := "DELETE FROM " +:+ table +:+ " WHERE " +:+ clause.1;
                 values := clause.2 |} in
  deleteAll table COLUMN_MAP db (Some (entry :: rest)) tr
  = match db stmt with
    | Return result =>
        (Return (default 0 (rowCount result)),
         tr ++ [Query stmt;
                LogInfo ("Deleted " +:+ rowCount_text result
                         +:+ " " +:+ table +:+ " record(s)")])
    | Throw e =>
        (Throw e,
         tr ++ [Query stmt;
                LogError ("Failed to delete from " +:+ table +:+ ":") e])
    end.
Proof.
  intros clause stmt. unfold deleteAll, stmt, clause. simpl length.
  simpl Nat.eqb. cbv iota.
  destruct (buildFilterClause COLUMN_MAP (entry :: rest)) as [w ps].
  run_operation. destruct (db _) as [result|e]; by rewrite <- app_assoc.
Qed.

Lemma included_absent (filters : Obj) :
  Forall (fun entry => entry.2 = VUndefined \/ entry.2 = VNull) filters ->
  included COLUMN_MAP filters = [].
Proof.
  induction 1 as [|[key value] filters Hv _ IH]; [reflexivity|].
  unfold included in *. simpl in *. by destruct Hv as [-> | ->].
Qed.

(** C4. [deleteAll] without a filter object, or with one of zero keys,
    throws its validation error and leaves the trace untouched. With a
    filter of at least one entry it sends exactly one statement,
    [DELETE FROM table WHERE] followed by one [column = $n] condition for
    each entry the filter keeps, numbered from 1 and joined by [AND]
    ([1=1] when none is kept), with the kept values as parameters, each at
    the position its placeholder names. It returns the row count the store
    reports for that statement (0 when the store reports none); an error of
    the store is thrown on. *)
Theorem deleteAll_guard_and_count (entry : string * Value) (rest : Obj)
    (tr : list Event) :
  let filters := entry :: rest in
  let kept := included COLUMN_MAP filters in
  let stmt :=
    {| text := "DELETE FROM " +:+ table +:+ " WHERE " +:+
               match kept with
               | [] => "1=1"
               | _ => String.concat " AND "
                        (placeholder_conditions COLUMN_MAP 1 kept)
               end;
       values := kept.*2 |} in
  let rejected :=
    Error ("deleteAll requires at least one filter. Use drop() to delete all records from " +:+ table) in
  deleteAll table COLUMN_MAP db None tr = (Throw rejected, tr)
  /\ deleteAll table COLUMN_MAP db (Some []) tr = (Throw rejected, tr)
  /\ queries (deleteAll table COLUMN_MAP db (Some filters) tr).2
     = queries tr ++ [stmt]
  /\ (deleteAll table COLUMN_MAP db (Some filters) tr).1
     = match db stmt with
       | Return result => Return (default 0 (rowCount result))
       | Throw e => Throw e
       end
  /\ (forall rows n,
         db stmt = Return {| rows := rows; rowCount := Some n |} ->
         (deleteAll table COLUMN_MAP db (Some filters) tr).1 = Return n)
  /\ (forall key value,
         (key, value) ∈ kept
         <-> (key, value) ∈ filters
             /\ value <> VUndefined /\ value <> VNull
             /\ getColumnName COLUMN_MAP key <> "")
  /\ (forall i key value,
         kept !! i = Some (key, value) ->
         placeholder_conditions COLUMN_MAP 1 kept !! i
         = Some (assignment (getColumnName COLUMN_MAP key) (i + 1))
         /\ parameter (values stmt) (i + 1) = Some value).
Proof.
  intros filters kept stmt rejected.
  pose proof (deleteAll_run entry rest tr) as Hrun. cbv zeta in Hrun.
  rewrite buildFilterClause_spec in Hrun. fold filters kept in Hrun.
  cbn [fst snd] in Hrun.
  assert (Hstmt :
    {| text := "DELETE FROM " +:+ table +:+ " WHERE " +:+
               match kept with
               | [] => "1=1"
               | p :: l => String.concat " AND "
                             (placeholder_conditions COLUMN_MAP 1 (p :: l))
               end;
       values := kept.*2 |} = stmt) by (subst stmt; by destruct kept).
  rewrite Hstmt in Hrun. subst rejected.
  split_and!.
  - reflexivity.
  - reflexivity.
  - fold filters. rewrite Hrun.
    destruct (db stmt) as [result|e]; cbn [snd]; by rewrite queries_app.
  - fold filters. rewrite Hrun. by destruct (db stmt).
  - intros rows n Hdb. fold filters. by rewrite Hrun, Hdb.
  - intros key value. apply included_elem_of.
  - intros i key value Hi.
    rewrite placeholder_conditions_lookup, Hi.
    replace (i + 1) with (S i) by lia. split; [done|].
    subst stmt. simpl. by rewrite list_lookup_fmap, Hi.
Qed.

(** C10. Some filter with a key, all of whose values are [undefined] or
    [null], passes the emptiness check of [deleteAll]: the one statement
    sent is [DELETE FROM table WHERE 1=1] with no parameter, and the count
    the store reports for it is returned. *)
Theorem deleteAll_absent_values_delete_everything :
  exists filters : Obj,
    filters <> []
    /\ Forall (fun entry => entry.2 = VUndefined \/ entry.2 = VNull) filters
    /\ buildFilterClause COLUMN_MAP filters = ("1=1", [])
    /\ queries (run (deleteAll table COLUMN_MAP db (Some filters))).2
       = [{| text := "DELETE FROM " +:+ table +:+ " WHERE 1=1"; values := [] |}]
    /\ (run (deleteAll table COLUMN_MAP db (Some filters))).1
       = match db {| text := "DELETE FROM " +:+ table +:+ " WHERE 1=1";
                     values := [] |} with
         | Return result => Return (default 0 (rowCount result))
         | Throw e => Throw e
         end.
Proof.
  exists [("status", VUndefined); ("closedAt", VNull)].
  split_and!.
  - discriminate.
  - apply Forall_cons; split; [by left|].
    apply Forall_cons; split; [by right|]. constructor.
  - reflexivity.
  - unfold run. rewrite deleteAll_run. simpl. by destruct (db _).
  - unfold run. rewrite deleteAll_run. simpl. by destruct (db _).
Qed.

(** C6. When the store answers the statement of [update], [updateAndReturn]
    or [delete] with a row count of zero, and so without an error of its
    own, the operation throws the [NotFoundError] made of the table name and
    of the identifier it was given; the caller gets the error. *)
Theorem zero_rows_raise_NotFoundError (identifier updates : Obj) :
  identifier <> [] ->
  (store_reports_zero db
     (run (update table COLUMN_MAP db identifier updates)).2 ->
   (run (update table COLUMN_MAP db identifier updates)).1
   = Throw (NotFoundError table identifier))
  /\ (store_reports_zero db
        (run (updateAndReturn table COLUMN_MAP db identifier updates)).2 ->
      (run (updateAndReturn table COLUMN_MAP db identifier updates)).1
      = Throw (NotFoundError table identifier))
  /\ (store_reports_zero db
        (run (delete table COLUMN_MAP db identifier)).2 ->
      (run (delete table COLUMN_MAP db identifier)).1
      = Throw (NotFoundError table identifier)).
Proof.
  intros _. unfold store_reports_zero, update, updateAndReturn, delete.
  destruct (getColumnMapping COLUMN_MAP identifier) as [[w vs]|e];
    run_operation.
  - split_and!;
      match goal with |- context [db ?s] =>
        destruct (db s) as [[rs [[|n]|]]|e] eqn:Hdb end;
      simpl; try (destruct rs; simpl);
      intros (s' & rows' & Hin & Hzero); try reflexivity;
      trace_inv Hin; injection Hin as ->;
      rewrite Hdb in Hzero; discriminate Hzero.
  - split_and!; intros (s' & rows' & Hin & _); by apply elem_of_nil in Hin.
Qed.

(** C7. [findAll] sends one statement. Its text is
    [SELECT * FROM table WHERE clause], then [ORDER BY column direction]
    only if an order field is asked for (the column by the naming
    transform, the direction [ASC] unless [DESC] is given), then [LIMIT $n]
    only if a limit is asked for, then [OFFSET $n] only if an offset is
    asked for. The order clause takes no placeholder: the limit takes the
    one after the filter parameters and the offset the one after that, and
    their values follow the filter parameters in that order. [getAll] is
    [findAll] without filters. *)
Theorem findAll_statement_composition (filters : option Obj)
    (options : option Options) (tr : list Event) :
  let clause := filterClauseOf COLUMN_MAP filters in
  let lim := requested_limit options in
  let off := requested_offset options in
  queries (findAll table COLUMN_MAP db filters options tr).2
  = queries tr ++
    [{| text :=
          ("SELECT * FROM " +:+ table +:+ " WHERE " +:+ clause.1)
          +:+ order_clause COLUMN_MAP options
          +:+ limit_clause (length clause.2) options
          +:+ offset_clause (length clause.2 + length (option_values lim))
                options;
        values := clause.2 ++ option_values lim ++ option_values off |}]
  /\ getAll table COLUMN_MAP db options tr
     = findAll table COLUMN_MAP db None options tr
  /\ filterClauseOf COLUMN_MAP None = ("1=1", [])
  /\ (forall field,
         requested_order options = Some field ->
         options ≫= orderBy = Some field)
  /\ (forall n, lim = Some n -> options ≫= limit = Some n)
  /\ (forall n, off = Some n -> options ≫= offset = Some n).
Proof.
  intros clause lim off. split_and!.
  - unfold findAll. rewrite findAll_statement_spec. fold clause lim off.
    run_operation. destruct (db _) as [result|e]; simpl.
    + by rewrite queries_snoc_query.
    + by rewrite queries_snoc_error, queries_snoc_query.
  - reflexivity.
  - reflexivity.
  - unfold requested_order. intros field.
    destruct (options ≫= orderBy) as [f|]; csimpl; [|done].
    destruct (String.eqb f ""); congruence.
  - subst lim. unfold requested_limit. intros n.
    destruct (options ≫= limit) as [m|]; csimpl; [|done].
    destruct (m =? 0)%Z; congruence.
  - subst off. unfold requested_offset. intros n.
    destruct (options ≫= offset) as [m|]; csimpl; [|done].
    destruct (m =? 0)%Z; congruence.
Qed.

End Operations.

Lemma zero_rows_raise_NotFoundError_witness :
  let db0 : Pool := fun _ => Return {| rows := []; rowCount := Some 0 |} in
  let identifier := [("ticketId", VNum 7)] in
  let updates := [("status", VStr "closed")] in
  identifier <> []
  /\ store_reports_zero db0 (run (update "tickets" None db0 identifier updates)).2
  /\ (run (update "tickets" None db0 identifier updates)).1
     = Throw (NotFoundError "tickets" identifier)
  /\ (run (updateAndReturn "tickets" None db0 identifier updates)).1
     = Throw (NotFoundError "tickets" identifier)
  /\ (run (delete "tickets" None db0 identifier)).1
     = Throw (NotFoundError "tickets" identifier).
Proof.
  intros db0 identifier updates.
  assert (Hne : identifier <> []) by discriminate.
  assert (Hzero : forall tr s, tr = [Query s; LogError "Failed to update tickets:"
                                        (NotFoundError "tickets" identifier)]
                               \/ tr = [Query s; LogError "Failed to delete tickets:"
                                        (NotFoundError "tickets" identifier)] ->
                               store_reports_zero db0 tr).
  { intros tr s Htr. exists s, []. split; [|reflexivity].
    destruct Htr as [-> | ->]; apply elem_of_cons; by left. }
  destruct (zero_rows_raise_NotFoundError "tickets" None db0 identifier updates Hne)
    as (Hupdate & Hreturn & Hdelete).
  split_and!.
  - exact Hne.
  - eapply Hzero. left. reflexivity.
  - apply Hupdate. eapply Hzero. left. reflexivity.
  - apply Hreturn. eapply Hzero. left. reflexivity.
  - apply Hdelete. eapply Hzero. right. reflexivity.
Defined.

Lemma buildFilterClause_skips_undefined_and_null_witness :
  let absent := [("closedAt", VNull); ("archivePath", VUndefined)] in
  included None absent = []
  /\ buildFilterClause None absent = ("1=1", []).
Proof.
  intros absent.
  assert (Hnone : included None absent = []) by reflexivity.
  split; [exact Hnone|].
  apply (buildFilterClause_skips_undefined_and_null None absent). exact Hnone.
Defined.

Lemma deleteAll_guard_and_count_witness :
  let stmt := {| text := "DELETE FROM tickets WHERE status = $1";
                 values := [VStr "closed"] |} in
  let db3 : Pool :=
    fun s =>
      if String.eqb (text s) "DELETE FROM tickets WHERE status = $1" then
        match values s with
        | [VStr "closed"] => Return {| rows := []; rowCount := Some 3 |}
        | _ => Throw (DriverError "unexpected parameters")
        end
      else Throw (DriverError "unexpected statement") in
  let filters := [("status", VStr "closed"); ("closedAt", VUndefined)] in
  db3 stmt = Return {| rows := []; rowCount := Some 3 |}
  /\ queries (run (deleteAll "tickets" None db3 (Some filters))).2 = [stmt]
  /\ (run (deleteAll "tickets" None db3 (Some filters))).1 = Return 3
  /\ parameter (values stmt) 1 = Some (VStr "closed").
Proof.
  intros stmt db3 filters.
  assert (Hdb : db3 stmt = Return {| rows := []; rowCount := Some 3 |})
    by reflexivity.
  assert (Hkept : included None filters !! 0 = Some ("status", VStr "closed"))
    by reflexivity.
  pose proof (deleteAll_guard_and_count "tickets" None db3
                ("status", VStr "closed") [("closedAt", VUndefined)] []) as H.
  cbv zeta in H. destruct H as (_ & _ & Hsent & _ & Hcount & _ & Haligned).
  split_and!.
  - exact Hdb.
  - exact Hsent.
  - exact (Hcount [] 3 Hdb).
  - exact (proj2 (Haligned 0 "status" (VStr "closed") Hkept)).
Defined.

Lemma findAll_statement_composition_witness :
  let options :=
    Some {| limit := Some 10%Z; offset := Some 20%Z;
            orderBy := Some "createdAt"; orderDirection := None |} in
  requested_limit options = Some 10%Z
  /\ options ≫= limit = Some 10%Z
  /\ forall db : Pool,
       queries (run (findAll "tickets" None db
                       (Some [("status", VStr "open")]) options)).2
       = [{| text := "SELECT * FROM tickets WHERE status = $1 ORDER BY created_at ASC LIMIT $2 OFFSET $3";
             values := [VStr "open"; VNum 10; VNum 20] |}].
Proof.
  intros options.
  assert (Hlim : requested_limit options = Some 10%Z) by reflexivity.
  split; [exact Hlim|]. split.
  - pose proof (findAll_statement_composition "tickets" None
                  (fun _ => Throw (DriverError "down")) None options []) as H.
    cbv zeta in H. destruct H as (_ & _ & _ & _ & Hl & _).
    exact (Hl 10%Z Hlim).
  - intros db.
    pose proof (findAll_statement_composition "tickets" None db
                  (Some [("status", VStr "open")]) options []) as H.
    cbv zeta in H. destruct H as (Hstmt & _). exact Hstmt.
Defined.

(** * Further properties of the naming transform and the row mapper *)

(** X1. The entity keys the row mapper produces are stable under the naming
    transform: rewriting a produced key again changes nothing, and sending
    it to its default column name and back returns the key. *)
Theorem snakeToCamel_stable (column : string) :
  snake_boundary (snakeToCamel column) = false
  /\ snakeToCamel (snakeToCamel column) = snakeToCamel column
  /\ snakeToCamel (camelToSnake (snakeToCamel column)) = snakeToCamel column
  /\ snakeToCamel (getColumnName None (snakeToCamel column))
     = snakeToCamel column.
Proof.
  pose proof (snakeToCamel_no_snake_boundary column) as H.
  split_and!; [done | by apply snakeToCamel_fixed
              | by apply snakeToCamel_camelToSnake
              | by apply snakeToCamel_camelToSnake].
Qed.

Lemma no_capitals_cons (c : ascii) (s : string) :
  no_capitals (String c s) = negb (is_upper c) && no_capitals s.
Proof. reflexivity. Qed.




(** X3. The default column name of a field never holds a capital letter. *)
Theorem camelToSnake_no_capitals (key : string) :
  no_capitals (camelToSnake key) = true
  /\ no_capitals (getColumnName None key) = true.
Proof.
  assert (H : no_capitals (camelToSnake key) = true).
  { induction key as [|c key IH]; [done|]. simpl camelToSnake.
    destruct (is_upper c) eqn:Hc.
    - rewrite !no_capitals_cons, IH, (is_upper_toLowerCase _ Hc). reflexivity.
    - by rewrite no_capitals_cons, IH, Hc. }
  by split.
Qed.

Lemma camelToSnake_empty (key : string) :
  camelToSnake key = "" <-> key = "".
Proof.
  split; [|by intros ->].
  destruct key as [|c key]; [done|]. simpl. by destruct (is_upper c).
Qed.

(** A member of [Object.prototype] has a name and a text, neither empty. *)
Lemma object_prototype_inhabited (key member : string) :
  object_prototype key = Some member -> member <> "" /\ key <> "".
Proof.
  intros H. split.
  - intros ->. unfold object_prototype, native_function in H.
    repeat match type of H with
      | (if ?b then _ else _) = _ => destruct b
      end;
      try discriminate H; injection H as H; vm_compute in H; discriminate H.
  - intros ->. discriminate H.
Qed.

(** X4. The column name of a field is the empty string, the one case the
    builders treat as an invalid key, exactly when the override table maps
    the field to the empty string, or the table has no entry for the field
    and the field name is itself empty. *)
Theorem getColumnName_empty (COLUMN_MAP : option (gmap string string))
    (key : string) :
  getColumnName COLUMN_MAP key = ""
  <-> empty_override COLUMN_MAP key
      \/ (no_override COLUMN_MAP key /\ key = "").
Proof.
  unfold getColumnName, column_override, empty_override, no_override.
  destruct COLUMN_MAP as [overrides|]; csimpl.
  - destruct (overrides !! key) as [column|] eqn:Hown.
    + split.
      * intros ->. by left.
      * intros [H | [H _]]; [by injection H | discriminate].
    + destruct (object_prototype key) as [member|] eqn:Hmember.
      * destruct (object_prototype_inhabited _ _ Hmember) as [Hm Hk].
        split; [done|]. intros [H | [_ H]]; [discriminate | done].
      * rewrite camelToSnake_empty. split.
        -- intros ->. by right.
        -- intros [H | [_ H]]; [discriminate | done].
  - rewrite camelToSnake_empty. split.
    + intros ->. by right.
    + intros [H | [_ H]]; [discriminate | done].
Qed.

(** ** Objects built by the row mapper *)

Lemma obj_get_obj_set (o : Obj) (k k' : string) (v : Value) :
  obj_get (obj_set o k' v) k = if String.eqb k' k then v else obj_get o k.
Proof.
  induction o as [|[a b] o IH]; simpl.
  - done.
  - destruct (String.eqb_spec a k') as [->|Hne]; simpl.
    + by destruct (String.eqb k' k).
    + rewrite IH. destruct (String.eqb_spec a k) as [->|_]; [|done].
      destruct (String.eqb_spec k' k) as [->|_]; done.
Qed.

Lemma obj_set_NoDup (o : Obj) (k : string) (v : Value) :
  NoDup o.*1 -> NoDup (obj_set o k v).*1.
Proof.
  induction o as [|[a b] o IH]; csimpl; intros Hnd.
  - apply NoDup_singleton.
  - apply NoDup_cons in Hnd as [Ha Hnd].
    destruct (String.eqb_spec a k) as [->|Hne]; csimpl.
    + by apply NoDup_cons.
    + apply NoDup_cons. split; [|by apply IH].
      rewrite obj_set_keys. intros [Hin | Heq]; [done | by apply Hne].
Qed.

(** X5. The entity the row mapper returns is a well-formed object: no key
    occurs twice, whatever the row. Two columns with the same camelCase name
    end in one property. *)
Theorem mapRowToEntity_keys_distinct (row : Obj) :
  NoDup (mapRowToEntity row).*1.
Proof.
  unfold mapRowToEntity.
  assert (H : forall acc : Obj,
             NoDup acc.*1 ->
             NoDup (fold_left
                      (fun entity '(key, value) =>
                         obj_set entity (snakeToCamel key) value) row acc).*1).
  { induction row as [|[key value] row IH]; intros acc Hacc; simpl; [done|].
    apply IH. by apply obj_set_NoDup. }
  apply H. constructor.
Qed.

(** X6. The row mapper keeps values as they are and lets the last column
    win: reading a key [k] of the mapped entity, [k] not being the name of
    a member of [Object.prototype], gives the value of the last column of
    the row whose camelCase name is [k], and [undefined] if there is
    none. *)
Theorem mapRowToEntity_get (row : Obj) (k : string) :
  object_prototype k = None ->
  obj_get (mapRowToEntity row) k = last_write k row.
Proof.
  intros _. unfold mapRowToEntity, last_write.
  change VUndefined with (obj_get [] k) at 1.
  generalize (@nil (string * Value)).
  induction row as [|[column value] row IH]; intros acc; simpl; [done|].
  rewrite IH, obj_get_obj_set. reflexivity.
Qed.

(** * Further properties of the operations *)

(** Unfolds one operation down to the answer of the pool. *)
Ltac run_op :=
  unfold run, firstRowToEntity, try_log, db_query, mbind, Eff_bind, eff_bind,
    mret, Eff_ret, eff_ret, throw, lift, log, createNotFoundError; simpl.

Section MoreOperations.

Variable table : string.
Variable COLUMN_MAP : option (gmap string string).
Variable db : Pool.

(** The condition of a well-formed identifier. *)
Local Abbreviation identifier_clause identifier :=
  (String.concat " AND " (placeholder_conditions COLUMN_MAP 1 identifier)).

Lemma getColumnMapping_valid (identifier : Obj) :
  identifier <> [] ->
  invalid_key COLUMN_MAP identifier = None ->
  getColumnMapping COLUMN_MAP identifier
  = Return (identifier_clause identifier, identifier.*2).
Proof. intros Hne Hk. by rewrite getColumnMapping_spec, Hk. Qed.

Lemma getColumnMapping_invalid (identifier : Obj) (key : string) :
  identifier <> [] ->
  invalid_key COLUMN_MAP identifier = Some key ->
  getColumnMapping COLUMN_MAP identifier
  = Throw (Error ("Invalid column key: " +:+ key)).
Proof. intros Hne Hk. by rewrite getColumnMapping_spec, Hk. Qed.

Lemma getUpdateMapping_values (updates : Obj) :
  (getUpdateMapping COLUMN_MAP updates).*2 = updates.*2.
Proof.
  unfold getUpdateMapping. rewrite <- list_fmap_compose.
  apply list_fmap_ext. by intros i [k v] _.
Qed.

Lemma getUpdateMapping_columns (updates : Obj) :
  (getUpdateMapping COLUMN_MAP updates).*1
  = getColumnName COLUMN_MAP <$> updates.*1.
Proof.
  unfold getUpdateMapping. rewrite <- !list_fmap_compose.
  apply list_fmap_ext. by intros i [k v] _.
Qed.

(** X7. For an identifier the builder accepts, [find] sends one
    [SELECT ... LIMIT 1] bound to the identifier values and, when the store
    answers, returns the mapped first row, or null when there is no row;
    it looks at no other row. [get] returns the same entity, and throws the
    [NotFoundError] of the table and the identifier when there is no row.
    Neither logs anything. *)
Theorem find_and_get_result (identifier : Obj) (result : QueryResult) :
  let stmt :=
    {| text := "SELECT * FROM " +:+ table +:+ " WHERE "
               +:+ identifier_clause identifier +:+ " LIMIT 1";
       values := identifier.*2 |} in
  identifier <> [] ->
  invalid_key COLUMN_MAP identifier = None ->
  db stmt = Return result ->
  run (find table COLUMN_MAP db identifier)
  = (Return (mapRowToEntity <$> head (rows result)), [Query stmt])
  /\ run (get table COLUMN_MAP db identifier)
     = (match head (rows result) with
        | Some row => Return (mapRowToEntity row)
        | None => Throw (NotFoundError table identifier)
        end,
        [Query stmt]).
Proof.
  intros stmt Hne Hk Hdb. subst stmt.
  unfold get, find. rewrite (getColumnMapping_valid _ Hne Hk).
  run_op. rewrite Hdb. simpl. by destruct (rows result).
Qed.

(** X8. When some key of a non-empty identifier has the empty string as its
    column name, every single-row operation throws
    "Invalid column key: " followed by the first such key, before any
    statement is sent and without logging. *)
Theorem invalid_key_rejected (identifier updates : Obj) (key : string)
    (tr : list Event) :
  let rejected := Error ("Invalid column key: " +:+ key) in
  identifier <> [] ->
  invalid_key COLUMN_MAP identifier = Some key ->
  find table COLUMN_MAP db identifier tr = (Throw rejected, tr)
  /\ get table COLUMN_MAP db identifier tr = (Throw rejected, tr)
  /\ exists_ table COLUMN_MAP db identifier tr = (Throw rejected, tr)
  /\ update table COLUMN_MAP db identifier updates tr = (Throw rejected, tr)
  /\ updateAndReturn table COLUMN_MAP db identifier updates tr
     = (Throw rejected, tr)
  /\ delete table COLUMN_MAP db identifier tr = (Throw rejected, tr).
Proof.
  intros rejected Hne Hk.
  unfold get, find, exists_, update, updateAndReturn, delete.
  rewrite (getColumnMapping_invalid _ _ Hne Hk). by split_and!.
Qed.

(** X9. When the store fails on the statement of a single-row operation,
    the operation sends nothing else, logs the error once under its own
    message and throws the very same error: it is neither wrapped nor
    replaced. *)
Theorem store_error_rethrown_single (identifier updates : Obj) (e : JsError) :
  identifier <> [] ->
  invalid_key COLUMN_MAP identifier = None ->
  (forall s, db s = Throw e) ->
  (exists s, run (find table COLUMN_MAP db identifier)
             = (Throw e, [Query s; LogError ("Failed to find " +:+ table +:+ ":") e]))
  /\ (exists s, run (get table COLUMN_MAP db identifier)
                = (Throw e, [Query s; LogError ("Failed to find " +:+ table +:+ ":") e]))
  /\ (exists s, run (exists_ table COLUMN_MAP db identifier)
                = (Throw e, [Query s; LogError ("Failed to check " +:+ table +:+ " existence:") e]))
  /\ (exists s, run (update table COLUMN_MAP db identifier updates)
                = (Throw e, [Query s; LogError ("Failed to update " +:+ table +:+ ":") e]))
  /\ (exists s, run (updateAndReturn table COLUMN_MAP db identifier updates)
                = (Throw e, [Query s; LogError ("Failed to update " +:+ table +:+ ":") e]))
  /\ (exists s, run (delete table COLUMN_MAP db identifier)
                = (Throw e, [Query s; LogError ("Failed to delete " +:+ table +:+ ":") e])).
Proof.
  intros Hne Hk Hdb.
  unfold get, find, exists_, update, updateAndReturn, delete.
  rewrite (getColumnMapping_valid _ Hne Hk). run_op.
  split_and!; eexists; rewrite Hdb; reflexivity.
Qed.

(** X10. For an identifier the builder accepts, [exists] sends one
    [SELECT EXISTS(...)] bound to the identifier values and returns the
    truthiness of the [exists] field of the first row. When the store
    answers without a row, reading the field fails: the [TypeError] is
    logged and thrown. *)
Theorem exists_result (identifier : Obj) (result : QueryResult) :
  let stmt :=
    {| text := "SELECT EXISTS(SELECT 1 FROM " +:+ table +:+ " WHERE "
               +:+ identifier_clause identifier +:+ ")";
       values := identifier.*2 |} in
  let failure :=
    TypeError "Cannot read properties of undefined (reading 'exists')" in
  identifier <> [] ->
  invalid_key COLUMN_MAP identifier = None ->
  db stmt = Return result ->
  run (exists_ table COLUMN_MAP db identifier)
  = match head (rows result) with
    | Some row => (Return (truthy (obj_get row "exists")), [Query stmt])
    | None =>
        (Throw failure,
         [Query stmt;
          LogError ("Failed to check " +:+ table +:+ " existence:") failure])
    end.
Proof.
  intros stmt failure Hne Hk Hdb. subst stmt failure.
  unfold exists_. rewrite (getColumnMapping_valid _ Hne Hk).
  run_op. rewrite Hdb. simpl. by destruct (rows result).
Qed.

Lemma filterClauseOf_spec (filters : option Obj) :
  filterClauseOf COLUMN_MAP filters
  = (match kept_filters COLUMN_MAP filters with
     | [] => "1=1"
     | kept => String.concat " AND " (placeholder_conditions COLUMN_MAP 1 kept)
     end,
     (kept_filters COLUMN_MAP filters).*2).
Proof.
  destruct filters as [filters|]; [|reflexivity].
  apply buildFilterClause_spec.
Qed.

Lemma filterClauseOf_included (filters : Obj) :
  filterClauseOf COLUMN_MAP (Some filters)
  = filterClauseOf COLUMN_MAP (Some (included COLUMN_MAP filters)).
Proof. rewrite !filterClauseOf_spec. simpl. by rewrite included_idemp. Qed.

Lemma filterClauseOf_none (filters : Obj) :
  included COLUMN_MAP filters = [] ->
  filterClauseOf COLUMN_MAP (Some filters) = filterClauseOf COLUMN_MAP None.
Proof. intros H. rewrite !filterClauseOf_spec. simpl. by rewrite H. Qed.

(** Every condition over [kept] and every assignment over [updates] names
    the placeholder that the array [kept values ++ update values] binds to
    its own value. *)
Lemma where_and_set_aligned (kept updates : Obj) :
  (forall i key value,
      kept !! i = Some (key, value) ->
      placeholder_conditions COLUMN_MAP 1 kept !! i
      = Some (assignment (getColumnName COLUMN_MAP key) (i + 1))
      /\ parameter (kept.*2 ++ updates.*2) (i + 1) = Some value)
  /\ (forall i key value,
         updates !! i = Some (key, value) ->
         setClauses 1 kept.*2 (getUpdateMapping COLUMN_MAP updates) !! i
         = Some (assignment (getColumnName COLUMN_MAP key)
                   (length kept + i + 1))
         /\ parameter (kept.*2 ++ updates.*2) (length kept + i + 1)
            = Some value).
Proof.
  split; intros i key value Hi.
  - rewrite placeholder_conditions_lookup, Hi.
    replace (i + 1) with (S i) by lia. split; [done|]. simpl.
    rewrite lookup_app_l.
    + by rewrite list_lookup_fmap, Hi.
    + rewrite length_fmap. by apply lookup_lt_Some in Hi.
  - rewrite setClauses_lookup. unfold getUpdateMapping.
    rewrite list_lookup_fmap, Hi, length_fmap. simpl. split; [done|].
    replace (length kept + i + 1) with (S (length kept + i)) by lia. simpl.
    rewrite lookup_app_r; rewrite length_fmap; [|lia].
    replace (length kept + i - length kept) with i by lia.
    by rewrite list_lookup_fmap, Hi.
Qed.

(** X11. For an identifier the builder accepts, [update] sends one
    statement whose parameters are the identifier values followed by the
    update values, and every placeholder is bound to the value it stands
    for: the i-th condition of the [WHERE] clause to the i-th identifier
    value, the i-th assignment of the [SET] clause to the i-th update
    value. *)
Theorem update_placeholders_aligned (identifier updates : Obj)
    (tr : list Event) :
  let sets :=
    setClauses 1 identifier.*2 (getUpdateMapping COLUMN_MAP updates) in
  let stmt :=
    {| text := nl +:+ "UPDATE " +:+ table +:+
               nl +:+ "SET " +:+ String.concat ", " sets +:+
               nl +:+ "WHERE " +:+ identifier_clause identifier;
       values := identifier.*2 ++ updates.*2 |} in
  identifier <> [] ->
  invalid_key COLUMN_MAP identifier = None ->
  queries (update table COLUMN_MAP db identifier updates tr).2
  = queries tr ++ [stmt]
  /\ (forall i key value,
         identifier !! i = Some (key, value) ->
         exists n,
           placeholder_conditions COLUMN_MAP 1 identifier !! i
           = Some (assignment (getColumnName COLUMN_MAP key) n)
           /\ parameter (values stmt) n = Some value)
  /\ (forall i key value,
         updates !! i = Some (key, value) ->
         exists n,
           sets !! i = Some (assignment (getColumnName COLUMN_MAP key) n)
           /\ parameter (values stmt) n = Some value).
Proof.
  intros sets stmt Hne Hk. subst sets stmt.
  destruct (where_and_set_aligned identifier updates) as [Hw Hs].
  split_and!.
  - unfold update. rewrite (getColumnMapping_valid _ Hne Hk). run_op.
    rewrite getUpdateMapping_values.
    destruct (db _) as [[rs [[|n]|]]|e]; simpl;
      rewrite ?queries_snoc_error, ?queries_snoc_query; reflexivity.
  - intros i key value Hi. exists (i + 1). by apply Hw.
  - intros i key value Hi. exists (length identifier + i + 1). by apply Hs.
Qed.

(** An operation made of one statement and a continuation that sends none
    sends exactly that statement. *)
Lemma queries_try_log_query {A : Type} (msg q : string) (ps : list Value)
    (k : QueryResult -> Eff A) (tr : list Event) :
  (forall result tr', queries (k result tr').2 = queries tr') ->
  queries (try_log msg (db_query db q ps ≫= k) tr).2
  = queries tr ++ [{| text := q; values := ps |}].
Proof.
  intros Hk. unfold try_log, mbind, Eff_bind, eff_bind, db_query.
  destruct (db _) as [result|e]; cbn [fst snd].
  - specialize (Hk result (tr ++ [Query {| text := q; values := ps |}])).
    destruct (k result _) as [[a|e] tr']; cbn [fst snd] in *;
      by rewrite ?queries_snoc_error, Hk, queries_snoc_query.
  - by rewrite queries_snoc_error, queries_snoc_query.
Qed.

(** X12. [updateAll] sends one statement whose parameters are the values of
    the filter entries it keeps followed by the update values; the [WHERE]
    conditions take the first placeholders and the [SET] assignments the
    next ones, and every placeholder is bound to the value it stands for. *)
Theorem updateAll_placeholders_aligned (updates : Obj) (filters : option Obj)
    (tr : list Event) :
  let kept := kept_filters COLUMN_MAP filters in
  let sets := setClauses 1 kept.*2 (getUpdateMapping COLUMN_MAP updates) in
  let stmt :=
    {| text := nl +:+ "UPDATE " +:+ table +:+
               nl +:+ "SET " +:+ String.concat ", " sets +:+
               nl +:+ "WHERE " +:+
               match kept with
               | [] => "1=1"
               | _ => String.concat " AND "
                        (placeholder_conditions COLUMN_MAP 1 kept)
               end;
       values := kept.*2 ++ updates.*2 |} in
  queries (updateAll table COLUMN_MAP db updates filters tr).2
  = queries tr ++ [stmt]
  /\ (forall i key value,
         kept !! i = Some (key, value) ->
         exists n,
           placeholder_conditions COLUMN_MAP 1 kept !! i
           = Some (assignment (getColumnName COLUMN_MAP key) n)
           /\ parameter (values stmt) n = Some value)
  /\ (forall i key value,
         updates !! i = Some (key, value) ->
         exists n,
           sets !! i = Some (assignment (getColumnName COLUMN_MAP key) n)
           /\ parameter (values stmt) n = Some value).
Proof.
  intros kept sets stmt. subst sets stmt.
  destruct (where_and_set_aligned kept updates) as [Hw Hs].
  split_and!.
  - unfold updateAll, updateAll_statement.
    rewrite filterClauseOf_spec. fold kept. rewrite getUpdateMapping_values.
    cbv beta iota zeta.
    rewrite queries_try_log_query by (intros; apply queries_snoc_info).
    clearbody kept. by destruct kept.
  - intros i key value Hi. exists (i + 1). by apply Hw.
  - intros i key value Hi. exists (length kept + i + 1). by apply Hs.
Qed.

(** X13. [updateAll] returns the row count the store reports, 0 when it
    reports none, and logs it. A count of zero is a result, not an error:
    unlike [update], [updateAll] never turns it into a [NotFoundError]. *)
Theorem updateAll_returns_count (updates : Obj) (filters : option Obj)
    (result : QueryResult) :
  let stmt :=
    {| text := (updateAll_statement table COLUMN_MAP updates filters).1;
       values := (updateAll_statement table COLUMN_MAP updates filters).2 |} in
  db stmt = Return result ->
  run (updateAll table COLUMN_MAP db updates filters)
  = (Return (default 0 (rowCount result)),
     [Query stmt;
      LogInfo ("Updated " +:+ rowCount_text result +:+ " " +:+ table
               +:+ " record(s)")]).
Proof.
  intros stmt Hdb. subst stmt. unfold updateAll.
  destruct (updateAll_statement table COLUMN_MAP updates filters) as [q ps].
  simpl in Hdb. run_op. by rewrite Hdb.
Qed.

(** X14. [findAll], [updateAll] and [count] see a filter object only through
    the entries the filter builder keeps: dropping the skipped entries
    beforehand changes nothing, and a filter object none of whose entries is
    kept (an empty object, or one holding only [undefined] and [null]) acts
    like no filter at all, that is on every row of the table. *)
Theorem filters_seen_through_kept_entries (filters updates : Obj)
    (options : option Options) (tr : list Event) :
  findAll table COLUMN_MAP db (Some filters) options tr
  = findAll table COLUMN_MAP db (Some (included COLUMN_MAP filters)) options tr
  /\ updateAll table COLUMN_MAP db updates (Some filters) tr
     = updateAll table COLUMN_MAP db updates
         (Some (included COLUMN_MAP filters)) tr
  /\ count table COLUMN_MAP db (Some filters) tr
     = count table COLUMN_MAP db (Some (included COLUMN_MAP filters)) tr
  /\ (included COLUMN_MAP filters = [] ->
      findAll table COLUMN_MAP db (Some filters) options tr
      = findAll table COLUMN_MAP db None options tr
      /\ updateAll table COLUMN_MAP db updates (Some filters) tr
         = updateAll table COLUMN_MAP db updates None tr
      /\ count table COLUMN_MAP db (Some filters) tr
         = count table COLUMN_MAP db None tr).
Proof.
  unfold findAll, findAll_statement, updateAll, updateAll_statement, count.
  split_and!; try (by rewrite filterClauseOf_included).
  intros Hnone. by rewrite !(filterClauseOf_none _ Hnone).
Qed.

(** X15. [count] sends one counting [SELECT] with the clause and the
    parameters of the filter builder. What it returns is never [undefined]
    or [null]: a missing or null [count] field of the first row is replaced
    by 0. *)
Theorem count_statement_and_result (filters : option Obj) (tr : list Event) :
  let stmt :=
    {| text := "SELECT COUNT(*) FROM " +:+ table +:+ " WHERE "
               +:+ (filterClauseOf COLUMN_MAP filters).1;
       values := (filterClauseOf COLUMN_MAP filters).2 |} in
  queries (count table COLUMN_MAP db filters tr).2 = queries tr ++ [stmt]
  /\ (forall row more rc,
         db stmt = Return {| rows := row :: more; rowCount := rc |} ->
         (count table COLUMN_MAP db filters tr).1
         = Return (if defined (obj_get row "count")
                   then obj_get row "count" else VNum 0))
  /\ (forall v,
         (count table COLUMN_MAP db filters tr).1 = Return v ->
         defined v = true).
Proof.
  intros stmt. subst stmt. unfold count.
  destruct (filterClauseOf COLUMN_MAP filters) as [w ps]. simpl fst. simpl snd.
  split_and!.
  - apply queries_try_log_query. intros result tr'.
    by destruct (rows result).
  - intros row more rc Hdb. run_op. by rewrite Hdb.
  - intros v. run_op. destruct (db _) as [[[|row more] rc]|e]; simpl;
      [discriminate | | discriminate].
    destruct (defined (obj_get row "count")) eqn:Hd; intros [= <-]; done.
Qed.

Lemma getCreateMapping_values (data : Obj) :
  (getCreateMapping COLUMN_MAP data).*2 = data.*2.
Proof. apply getUpdateMapping_values. Qed.

Lemma getCreateMapping_columns (data : Obj) :
  (getCreateMapping COLUMN_MAP data).*1 = getColumnName COLUMN_MAP <$> data.*1.
Proof. apply getUpdateMapping_columns. Qed.

Lemma insertPlaceholders_lookup (createMappings : list (string * Value))
    (i : nat) :
  insertPlaceholders createMappings !! i
  = (fun _ => "$" +:+ pretty (i + 1)) <$> createMappings !! i.
Proof. unfold insertPlaceholders. apply list_lookup_imap. Qed.

(** X16. [create] sends one [INSERT] that lists, for every entry of the
    data in order and without skipping any, its column, the placeholder
    [$(i+1)] and its value at that position of the parameter array.
    [createAndReturn] sends the same statement followed by [RETURNING *],
    with the same values. *)
Theorem create_placeholders_aligned (data : Obj) (tr : list Event) :
  let columns := getColumnName COLUMN_MAP <$> data.*1 in
  let placeholders := insertPlaceholders (getCreateMapping COLUMN_MAP data) in
  let insert :=
    "INSERT INTO " +:+ table +:+ " (" +:+ String.concat ", " columns
    +:+ ") VALUES (" +:+ String.concat ", " placeholders +:+ ")" in
  queries (create table COLUMN_MAP db data tr).2
  = queries tr ++ [{| text := insert; values := data.*2 |}]
  /\ queries (createAndReturn table COLUMN_MAP db data tr).2
     = queries tr ++ [{| text := insert +:+ " RETURNING *"; values := data.*2 |}]
  /\ length columns = length data
  /\ length placeholders = length data
  /\ (forall i key value,
         data !! i = Some (key, value) ->
         columns !! i = Some (getColumnName COLUMN_MAP key)
         /\ placeholders !! i = Some ("$" +:+ pretty (i + 1))
         /\ parameter data.*2 (i + 1) = Some value).
Proof.
  intros columns placeholders insert. subst columns placeholders insert.
  split_and!.
  - unfold create, create_statement.
    rewrite getCreateMapping_values, getCreateMapping_columns.
    cbv beta iota zeta. by apply queries_try_log_query.
  - unfold createAndReturn, createAndReturn_statement.
    rewrite getCreateMapping_values, getCreateMapping_columns.
    cbv beta iota zeta.
    rewrite queries_try_log_query.
    + by rewrite !append_assoc.
    + intros result tr'. unfold firstRowToEntity. by destruct (rows result).
  - by rewrite !length_fmap.
  - unfold insertPlaceholders, getCreateMapping.
    by rewrite length_imap, length_fmap.
  - intros i key value Hi. split_and!.
    + by rewrite !list_lookup_fmap, Hi.
    + unfold getCreateMapping.
      by rewrite insertPlaceholders_lookup, list_lookup_fmap, Hi.
    + replace (i + 1) with (S i) by lia. simpl.
      by rewrite list_lookup_fmap, Hi.
Qed.

(** X17. When the store answers, [createAndReturn] and [upsert] return the
    mapped first row and log nothing. When it answers without a row, mapping
    the missing row fails: the [TypeError] is logged and thrown. *)
Theorem returning_operations_result (data : Obj) (conflictTarget : ConflictTarget)
    (updateFields : option (list string)) (result : QueryResult) :
  let inserted :=
    {| text := (createAndReturn_statement table COLUMN_MAP data).1;
       values := (createAndReturn_statement table COLUMN_MAP data).2 |} in
  let upserted :=
    {| text := (upsert_statement table COLUMN_MAP data conflictTarget
                  updateFields).1;
       values := (upsert_statement table COLUMN_MAP data conflictTarget
                    updateFields).2 |} in
  let failure := TypeError "Cannot convert undefined or null to object" in
  (db inserted = Return result ->
   run (createAndReturn table COLUMN_MAP db data)
   = match head (rows result) with
     | Some row => (Return (mapRowToEntity row), [Query inserted])
     | None =>
         (Throw failure,
          [Query inserted;
           LogError ("Failed to create " +:+ table +:+ ":") failure])
     end)
  /\ (db upserted = Return result ->
      run (upsert table COLUMN_MAP db data conflictTarget updateFields)
      = match head (rows result) with
        | Some row => (Return (mapRowToEntity row), [Query upserted])
        | None =>
            (Throw failure,
             [Query upserted;
              LogError ("Failed to upsert " +:+ table +:+ ":") failure])
        end).
Proof.
  intros inserted upserted failure. subst inserted upserted failure.
  unfold createAndReturn, upsert.
  destruct (createAndReturn_statement table COLUMN_MAP data) as [q ps].
  destruct (upsert_statement table COLUMN_MAP data conflictTarget updateFields)
    as [q' ps'].
  simpl fst. simpl snd.
  split; intros Hdb; run_op; rewrite Hdb; simpl; by destruct (rows result).
Qed.

(** X18. [upsert] binds the values of the data, as [create] does, whatever
    the conflict target and the update fields. Leaving the update fields
    out is the same as naming every field of the data: every inserted
    column is overwritten. A single conflict key is the same as the array
    holding that key. *)
Theorem upsert_statement_defaults (data : Obj) (conflictTarget : ConflictTarget)
    (updateFields : option (list string)) (key : string) :
  (upsert_statement table COLUMN_MAP data conflictTarget updateFields).2
  = data.*2
  /\ (create_statement table COLUMN_MAP data).2 = data.*2
  /\ upsert_statement table COLUMN_MAP data conflictTarget None
     = upsert_statement table COLUMN_MAP data conflictTarget (Some data.*1)
  /\ upsert_statement table COLUMN_MAP data (OneKey key) updateFields
     = upsert_statement table COLUMN_MAP data (ManyKeys [key]) updateFields.
Proof.
  unfold upsert_statement, create_statement. cbv beta iota zeta.
  split_and!.
  - apply getCreateMapping_values.
  - apply getCreateMapping_values.
  - by rewrite getCreateMapping_columns.
  - reflexivity.
Qed.

(** X19. When the store answers, [findAll], [getAll] and [raw] return one
    entity per row, in the order of the rows, each the mapped row, and log
    nothing; no row gives the empty list. [raw] sends the text and the
    parameters it is given, untouched. *)
Theorem list_operations_result (filters : option Obj)
    (options : option Options) (query : string) (params : option (list Value))
    (result : QueryResult) :
  let found :=
    {| text := (findAll_statement table COLUMN_MAP filters options).1;
       values := (findAll_statement table COLUMN_MAP filters options).2 |} in
  let given := {| text := query; values := default [] params |} in
  (db found = Return result ->
   run (findAll table COLUMN_MAP db filters options)
   = (Return (mapRowsToEntities (rows result)), [Query found]))
  /\ (db given = Return result ->
      run (raw table db query params)
      = (Return (mapRowsToEntities (rows result)), [Query given]))
  /\ getAll table COLUMN_MAP db options
     = findAll table COLUMN_MAP db None options
  /\ length (mapRowsToEntities (rows result)) = length (rows result)
  /\ (forall i,
         mapRowsToEntities (rows result) !! i
         = mapRowToEntity <$> rows result !! i).
Proof.
  intros found given. subst found given. unfold findAll, raw.
  destruct (findAll_statement table COLUMN_MAP filters options) as [q ps].
  simpl fst. simpl snd. split_and!.
  - intros Hdb. run_op. by rewrite Hdb.
  - intros Hdb. run_op. by rewrite Hdb.
  - reflexivity.
  - unfold mapRowsToEntities. apply length_fmap.
  - intros i. unfold mapRowsToEntities. apply list_lookup_fmap.
Qed.

(** X20. When the store fails on the statement of a list, bulk, insert or
    utility operation, the operation sends nothing else, logs the error
    once under its own message and throws the very same error. *)
Theorem store_error_rethrown_bulk (filters : option Obj)
    (options : option Options) (updates data : Obj) (entry : string * Value)
    (rest : Obj) (conflictTarget : ConflictTarget)
    (updateFields : option (list string)) (query : string)
    (params : option (list Value)) (e : JsError) :
  (forall s, db s = Throw e) ->
  (exists s, run (findAll table COLUMN_MAP db filters options)
             = (Throw e, [Query s; LogError ("Failed to find all " +:+ table +:+ ":") e]))
  /\ (exists s, run (updateAll table COLUMN_MAP db updates filters)
                = (Throw e, [Query s; LogError ("Failed to update " +:+ table +:+ ":") e]))
  /\ (exists s, run (deleteAll table COLUMN_MAP db (Some (entry :: rest)))
                = (Throw e, [Query s; LogError ("Failed to delete from " +:+ table +:+ ":") e]))
  /\ (exists s, run (count table COLUMN_MAP db filters)
                = (Throw e, [Query s; LogError ("Failed to count " +:+ table +:+ ":") e]))
  /\ (exists s, run (create table COLUMN_MAP db data)
                = (Throw e, [Query s; LogError ("Failed to create " +:+ table +:+ ":") e]))
  /\ (exists s, run (createAndReturn table COLUMN_MAP db data)
                = (Throw e, [Query s; LogError ("Failed to create " +:+ table +:+ ":") e]))
  /\ (exists s, run (upsert table COLUMN_MAP db data conflictTarget updateFields)
                = (Throw e, [Query s; LogError ("Failed to upsert " +:+ table +:+ ":") e]))
  /\ (exists s, run (raw table db query params)
                = (Throw e, [Query s; LogError ("Failed to execute raw query on " +:+ table +:+ ":") e])).
Proof.
  intros Hdb.
  unfold findAll, updateAll, count, create, createAndReturn, upsert, raw.
  destruct (findAll_statement table COLUMN_MAP filters options) as [q1 p1].
  destruct (updateAll_statement table COLUMN_MAP updates filters) as [q2 p2].
  destruct (filterClauseOf COLUMN_MAP filters) as [q3 p3].
  destruct (create_statement table COLUMN_MAP data) as [q4 p4].
  destruct (createAndReturn_statement table COLUMN_MAP data) as [q5 p5].
  destruct (upsert_statement table COLUMN_MAP data conflictTarget updateFields)
    as [q6 p6].
  unfold run. rewrite deleteAll_run.
  run_op. split_and!; eexists; rewrite Hdb; reflexivity.
Qed.

End MoreOperations.

(** ** The further properties at concrete inputs *)

Lemma mapRowToEntity_get_witness :
  let row := [("ticket_id", VNum 7); ("closed_at", VNull);
              ("closedAt", VStr "2024-01-01")] in
  object_prototype "closedAt" = None
  /\ object_prototype "status" = None
  /\ obj_get (mapRowToEntity row) "closedAt" = VStr "2024-01-01"
  /\ obj_get (mapRowToEntity row) "status" = VUndefined.
Proof.
  intros row.
  assert (Hc : object_prototype "closedAt" = None) by reflexivity.
  assert (Hs : object_prototype "status" = None) by reflexivity.
  split_and!; [exact Hc | exact Hs
              | exact (mapRowToEntity_get row "closedAt" Hc)
              | exact (mapRowToEntity_get row "status" Hs)].
Defined.

Lemma find_and_get_result_witness :
  let result :=
    {| rows := [[("ticket_id", VNum 7); ("channel_id", VStr "c1")];
                [("ticket_id", VNum 8); ("channel_id", VStr "c2")]];
       rowCount := Some 2 |} in
  let db : Pool := fun _ => Return result in
  let identifier := [("ticketId", VNum 7)] in
  let stmt := {| text := "SELECT * FROM tickets WHERE ticket_id = $1 LIMIT 1";
                 values := [VNum 7] |} in
  identifier <> []
  /\ invalid_key None identifier = None
  /\ db stmt = Return result
  /\ run (get "tickets" None db identifier)
     = (Return [("ticketId", VNum 7); ("channelId", VStr "c1")], [Query stmt]).
Proof.
  intros result db identifier stmt.
  assert (Hne : identifier <> []) by discriminate.
  assert (Hk : invalid_key None identifier = None) by reflexivity.
  assert (Hdb : db stmt = Return result) by reflexivity.
  split_and!; [exact Hne | exact Hk | exact Hdb |].
  exact (proj2 (find_and_get_result "tickets" None db identifier result
                  Hne Hk Hdb)).
Defined.

Lemma invalid_key_rejected_witness :
  let db : Pool := fun _ => Return {| rows := []; rowCount := Some 1 |} in
  let identifier := [("ticketId", VNum 7); ("", VNum 1)] in
  identifier <> []
  /\ invalid_key None identifier = Some ""
  /\ delete "tickets" None db identifier []
     = (Throw (Error "Invalid column key: "), []).
Proof.
  intros db identifier.
  assert (Hne : identifier <> []) by discriminate.
  assert (Hk : invalid_key None identifier = Some "") by reflexivity.
  split_and!; [exact Hne | exact Hk |].
  pose proof (invalid_key_rejected "tickets" None db identifier [] "" []
                Hne Hk) as H.
  exact (proj2 (proj2 (proj2 (proj2 (proj2 H))))).
Defined.

Lemma store_error_rethrown_single_witness :
  let e := DriverError "connection refused" in
  let db : Pool := fun _ => Throw e in
  let identifier := [("ticketId", VNum 7)] in
  identifier <> []
  /\ invalid_key None identifier = None
  /\ (forall s, db s = Throw e)
  /\ exists s,
       run (find "tickets" None db identifier)
       = (Throw e, [Query s; LogError "Failed to find tickets:" e]).
Proof.
  intros e db identifier.
  assert (Hne : identifier <> []) by discriminate.
  assert (Hk : invalid_key None identifier = None) by reflexivity.
  assert (Hdb : forall s, db s = Throw e) by reflexivity.
  split_and!; [exact Hne | exact Hk | exact Hdb |].
  exact (proj1 (store_error_rethrown_single "tickets" None db identifier []
                  e Hne Hk Hdb)).
Defined.

Lemma exists_result_witness :
  let result := {| rows := [[("exists", VBool true)]]; rowCount := Some 1 |} in
  let db : Pool := fun _ => Return result in
  let identifier := [("channelId", VStr "c1")] in
  let stmt :=
    {| text := "SELECT EXISTS(SELECT 1 FROM tickets WHERE channel_id = $1)";
       values := [VStr "c1"] |} in
  identifier <> []
  /\ invalid_key None identifier = None
  /\ db stmt = Return result
  /\ run (exists_ "tickets" None db identifier) = (Return true, [Query stmt]).
Proof.
  intros result db identifier stmt.
  assert (Hne : identifier <> []) by discriminate.
  assert (Hk : invalid_key None identifier = None) by reflexivity.
  assert (Hdb : db stmt = Return result) by reflexivity.
  split_and!; [exact Hne | exact Hk | exact Hdb |].
  exact (exists_result "tickets" None db identifier result Hne Hk Hdb).
Defined.

Lemma update_placeholders_aligned_witness :
  let db : Pool := fun _ => Return {| rows := []; rowCount := Some 1 |} in
  let identifier := [("ticketId", VNum 7)] in
  let updates := [("status", VStr "closed"); ("closedAt", VNull)] in
  identifier <> []
  /\ invalid_key None identifier = None
  /\ queries (run (update "tickets" None db identifier updates)).2
     = [{| text := nl +:+ "UPDATE tickets" +:+
                   nl +:+ "SET status = $2, closed_at = $3" +:+
                   nl +:+ "WHERE ticket_id = $1";
           values := [VNum 7; VStr "closed"; VNull] |}]
  /\ exists n,
       setClauses 1 identifier.*2 (getUpdateMapping None updates) !! 1
       = Some (assignment "closed_at" n)
       /\ parameter [VNum 7; VStr "closed"; VNull] n = Some VNull.
Proof.
  intros db identifier updates.
  assert (Hne : identifier <> []) by discriminate.
  assert (Hk : invalid_key None identifier = None) by reflexivity.
  pose proof (update_placeholders_aligned "tickets" None db identifier updates
                [] Hne Hk) as (Hq & _ & Hset).
  split_and!; [exact Hne | exact Hk | exact Hq |].
  exact (Hset 1 "closedAt" VNull eq_refl).
Defined.

Lemma updateAll_placeholders_aligned_witness :
  let db : Pool := fun _ => Return {| rows := []; rowCount := Some 4 |} in
  let filters := Some [("status", VStr "open"); ("closedAt", VNull)] in
  let updates := [("status", VStr "closed")] in
  updates !! 0 = Some ("status", VStr "closed")
  /\ queries (run (updateAll "tickets" None db updates filters)).2
     = [{| text := nl +:+ "UPDATE tickets" +:+
                   nl +:+ "SET status = $2" +:+
                   nl +:+ "WHERE status = $1";
           values := [VStr "open"; VStr "closed"] |}]
  /\ exists n,
       setClauses 1 [VStr "open"] (getUpdateMapping None updates) !! 0
       = Some (assignment "status" n)
       /\ parameter [VStr "open"; VStr "closed"] n = Some (VStr "closed").
Proof.
  intros db filters updates.
  assert (Hi : updates !! 0 = Some ("status", VStr "closed")) by reflexivity.
  pose proof (updateAll_placeholders_aligned "tickets" None db updates filters
                []) as (Hq & _ & Hset).
  split_and!; [exact Hi | exact Hq |].
  exact (Hset 0 "status" (VStr "closed") Hi).
Defined.

Lemma updateAll_returns_count_witness :
  let result := {| rows := []; rowCount := Some 0 |} in
  let db : Pool := fun _ => Return result in
  let updates := [("status", VStr "closed")] in
  let stmt := {| text := nl +:+ "UPDATE tickets" +:+
                         nl +:+ "SET status = $1" +:+
                         nl +:+ "WHERE 1=1";
                 values := [VStr "closed"] |} in
  db stmt = Return result
  /\ run (updateAll "tickets" None db updates None)
     = (Return 0, [Query stmt; LogInfo "Updated 0 tickets record(s)"]).
Proof.
  intros result db updates stmt.
  assert (Hdb : db stmt = Return result) by reflexivity.
  split; [exact Hdb|].
  exact (updateAll_returns_count "tickets" None db updates None result Hdb).
Defined.

Lemma filters_seen_through_kept_entries_witness :
  let db : Pool :=
    fun _ => Return {| rows := [[("count", VStr "12")]]; rowCount := Some 1 |} in
  let filters := [("closedAt", VNull); ("archivePath", VUndefined)] in
  included None filters = []
  /\ count "tickets" None db (Some filters) [] = count "tickets" None db None [].
Proof.
  intros db filters.
  assert (Hnone : included None filters = []) by reflexivity.
  split; [exact Hnone|].
  pose proof (filters_seen_through_kept_entries "tickets" None db filters []
                None []) as (_ & _ & _ & H).
  exact (proj2 (proj2 (H Hnone))).
Defined.

Lemma count_statement_and_result_witness :
  let db : Pool :=
    fun _ => Return {| rows := [[("count", VStr "12")]]; rowCount := Some 1 |} in
  let filters := Some [("status", VStr "open")] in
  (count "tickets" None db filters []).1 = Return (VStr "12")
  /\ defined (VStr "12") = true.
Proof.
  intros db filters.
  assert (Hv : (count "tickets" None db filters []).1 = Return (VStr "12"))
    by reflexivity.
  split; [exact Hv|].
  pose proof (count_statement_and_result "tickets" None db filters [])
    as (_ & _ & H).
  exact (H (VStr "12") Hv).
Defined.

Lemma create_placeholders_aligned_witness :
  let db : Pool := fun _ => Return {| rows := []; rowCount := Some 1 |} in
  let data := [("channelId", VStr "c1"); ("closedAt", VNull)] in
  data !! 1 = Some ("closedAt", VNull)
  /\ queries (run (create "tickets" None db data)).2
     = [{| text := "INSERT INTO tickets (channel_id, closed_at) VALUES ($1, $2)";
           values := [VStr "c1"; VNull] |}]
  /\ insertPlaceholders (getCreateMapping None data) !! 1 = Some "$2"
  /\ parameter [VStr "c1"; VNull] 2 = Some VNull.
Proof.
  intros db data.
  assert (Hi : data !! 1 = Some ("closedAt", VNull)) by reflexivity.
  pose proof (create_placeholders_aligned "tickets" None db data [])
    as (Hq & _ & _ & _ & Hal).
  destruct (Hal 1 "closedAt" VNull Hi) as (_ & Hp & Hv).
  split_and!; [exact Hi | exact Hq | exact Hp | exact Hv].
Defined.

Lemma returning_operations_result_witness :
  let result :=
    {| rows := [[("ticket_id", VNum 9); ("channel_id", VStr "c1")]];
       rowCount := Some 1 |} in
  let db : Pool := fun _ => Return result in
  let data := [("channelId", VStr "c1")] in
  let stmt :=
    {| text := "INSERT INTO tickets (channel_id) VALUES ($1) RETURNING *";
       values := [VStr "c1"] |} in
  db stmt = Return result
  /\ run (createAndReturn "tickets" None db data)
     = (Return [("ticketId", VNum 9); ("channelId", VStr "c1")], [Query stmt]).
Proof.
  intros result db data stmt.
  assert (Hdb : db stmt = Return result) by reflexivity.
  split; [exact Hdb|].
  exact (proj1 (returning_operations_result "tickets" None db data
                  (OneKey "channelId") None result) Hdb).
Defined.

Lemma list_operations_result_witness :
  let result :=
    {| rows := [[("ticket_id", VNum 7)]; [("ticket_id", VNum 8)]];
       rowCount := Some 2 |} in
  let db : Pool := fun _ => Return result in
  let stmt := {| text := "SELECT * FROM tickets WHERE status = $1";
                 values := [VStr "open"] |} in
  db stmt = Return result
  /\ run (raw "tickets" db "SELECT * FROM tickets WHERE status = $1"
            (Some [VStr "open"]))
     = (Return [[("ticketId", VNum 7)]; [("ticketId", VNum 8)]], [Query stmt]).
Proof.
  intros result db stmt.
  assert (Hdb : db stmt = Return result) by reflexivity.
  split; [exact Hdb|].
  pose proof (list_operations_result "tickets" None db None None
                "SELECT * FROM tickets WHERE status = $1"
                (Some [VStr "open"]) result) as (_ & H & _).
  exact (H Hdb).
Defined.

Lemma store_error_rethrown_bulk_witness :
  let e := DriverError "connection refused" in
  let db : Pool := fun _ => Throw e in
  (forall s, db s = Throw e)
  /\ exists s,
       run (create "tickets" None db [("channelId", VStr "c1")])
       = (Throw e, [Query s; LogError "Failed to create tickets:" e]).
Proof.
  intros e db.
  assert (Hdb : forall s, db s = Throw e) by reflexivity.
  split; [exact Hdb|].
  pose proof (store_error_rethrown_bulk "tickets" None db None None []
                [("channelId", VStr "c1")] ("status", VStr "open") []
                (OneKey "channelId") None "SELECT 1" None e Hdb)
    as (_ & _ & _ & _ & H & _).
  exact H.
Defined.
